(** * The lead store of the sales CRM front-end

    A shallow embedding of [src/contexts/AppContext.tsx]: the request
    deduplicator, the single-slot result cache, the API record
    transformer and the lead mutations, with the properties the
    specification states about them. Where the variant of the provider in
    [src/unnamed/part_000] differs on a modelled operation, it is embedded
    next to it. Further properties follow for the same code and for the
    rest of the provider: the bodies [addLead] and [addTodo] send and how
    they read back, the refetch of [addLead], the task operations, the
    single-lead fetch, the readers of the collections, and the phone input
    of the lead forms in [src/components/leads].

    JavaScript values are embedded as an inductive type, React state and
    the two [useRef] cells as one record that every operation threads
    explicitly, and every awaited remote call as an input of the operation
    that awaits it. *)

From Stdlib Require Import ZArith Ascii String List Permutation Sorted Lia.
From stdpp Require Import base option list strings gmap pretty.

Set Warnings "-register-all".
Local Open Scope string_scope.
Local Open Scope Z_scope.

(** ** JavaScript values *)

Module JS.

(** Numbers are the integers together with [NaN]: the only arithmetic of
    the modelled code is [parseInt] and a subtraction of two clock
    readings. An integer stands for the double of that value, which exists
    and behaves as the integer does only below 2^53 in magnitude; there are
    no fractions and no infinities. See [represented]. *)
Inductive number : Type :=
| NaN
| Num (z : Z).

(** Arrays and objects carry the address they were allocated at: [===]
    compares addresses, serialisation ignores them. The property list of an
    object is in enumeration order. *)
Inductive value : Type :=
| VUndefined
| VNull
| VBool (b : bool)
| VNum (n : number)
| VStr (s : string)
| VArr (ref : nat) (elems : list value)
| VObj (ref : nat) (props : list (string * value)).

Definition object : Type := list (string * value).

Inductive error : Type :=
| TypeError (msg : string)
| SyntaxError (msg : string)
| Error (msg : string).

(** The outcome of code that may throw. *)
Inductive result (A : Type) : Type :=
| Ok (a : A)
| Throw (e : error).
Arguments Ok {A} a.
Arguments Throw {A} e.

#[global] Instance result_ret : MRet result := fun A a => Ok a.
#[global] Instance result_bind : MBind result := fun A B k r =>
  match r with
  | Ok a => k a
  | Throw e => Throw e
  end.

Definition number_eqb (a b : number) : bool :=
  match a, b with
  | Num x, Num y => Z.eqb x y
  | _, _ => false
  end.

(** [a === b]. *)
Definition strictEq (a b : value) : bool :=
  match a, b with
  | VUndefined, VUndefined => true
  | VNull, VNull => true
  | VBool x, VBool y => Bool.eqb x y
  | VNum x, VNum y => number_eqb x y
  | VStr x, VStr y => String.eqb x y
  | VArr r1 _, VArr r2 _ => Nat.eqb r1 r2
  | VObj r1 _, VObj r2 _ => Nat.eqb r1 r2
  | _, _ => false
  end.

(** [ToBoolean]. *)
Definition truthy (v : value) : bool :=
  match v with
  | VUndefined | VNull => false
  | VBool b => b
  | VNum NaN => false
  | VNum (Num z) => negb (Z.eqb z 0)
  | VStr s => negb (String.eqb s "")
  | VArr _ _ | VObj _ _ => true
  end.

(** [a || b]. *)
Definition or_else (a b : value) : value := if truthy a then a else b.

Definition isArray (v : value) : bool :=
  match v with
  | VArr _ _ => true
  | _ => false
  end.

(** [Array.prototype.join]. *)
Fixpoint join (sep : string) (l : list string) : string :=
  match l with
  | [] => ""
  | [x] => x
  | x :: rest => x +:+ sep +:+ join sep rest
  end.

(** [Number.prototype.toString] where it prints plain decimal digits,
    which it does for every integer below 1e21 in magnitude; from there on
    JavaScript prints exponent notation, which is not modelled. *)
Definition numberToString (n : number) : string :=
  match n with
  | NaN => "NaN"
  | Num z => pretty z
  end.

(** [Number.isSafeInteger]. *)
Definition isSafeInteger (n : number) : bool :=
  match n with
  | NaN => false
  | Num z => Z.abs z <=? 2 ^ 53 - 1
  end.

(** The numbers the model stands for: [NaN] and the safe integers. On
    these the double is the integer itself, [toString] prints it in plain
    decimal and [parseInt] reads the digits back exactly. What is stated
    about printing a number and reading it back is stated for these. *)
Definition represented (n : number) : bool :=
  match n with
  | NaN => true
  | Num _ => isSafeInteger n
  end.

(** [ToString]; an element of an array that is [null] or [undefined]
    prints as the empty string when the array is joined. *)
Fixpoint toString (v : value) : string :=
  match v with
  | VUndefined => "undefined"
  | VNull => "null"
  | VBool b => if b then "true" else "false"
  | VNum n => numberToString n
  | VStr s => s
  | VArr _ a =>
      join "," (map (fun x => match x with
                              | VUndefined | VNull => ""
                              | _ => toString x
                              end) a)
  | VObj _ _ => "[object Object]"
  end.

(** Property read [v.k]: [undefined] and [null] have no properties; none of
    the names the store reads is a property of a primitive or of an array. *)
Fixpoint lookupProp (k : string) (ps : object) : value :=
  match ps with
  | [] => VUndefined
  | (k', x) :: rest => if String.eqb k k' then x else lookupProp k rest
  end.

Definition get (v : value) (k : string) : result value :=
  match v with
  | VUndefined | VNull => Throw (TypeError "Cannot read properties of undefined")
  | VObj _ ps => Ok (lookupProp k ps)
  | _ => Ok VUndefined
  end.

(** *** parseInt *)

(** White space, as far as it is ASCII: space, tab, line feed, vertical
    tab, form feed, carriage return. *)
Definition isWhiteSpace (c : ascii) : bool :=
  let n := nat_of_ascii c in
  (Nat.eqb n 32 || (Nat.leb 9 n && Nat.leb n 13))%bool.

Fixpoint trimStart (s : string) : string :=
  match s with
  | String c rest => if isWhiteSpace c then trimStart rest else s
  | EmptyString => s
  end.

Definition digitValue (radix : Z) (c : ascii) : option Z :=
  let n := Z.of_nat (nat_of_ascii c) in
  let d :=
    if ((48 <=? n) && (n <=? 57))%bool then Some (n - 48)
    else if ((97 <=? n) && (n <=? 122))%bool then Some (n - 87)
    else if ((65 <=? n) && (n <=? 90))%bool then Some (n - 55)
    else None in
  match d with
  | Some x => if x <? radix then Some x else None
  | None => None
  end.

(** The longest prefix of digits, [None] when it is empty. *)
Fixpoint parseDigits (radix : Z) (s : string) (acc : option Z) : option Z :=
  match s with
  | EmptyString => acc
  | String c rest =>
      match digitValue radix c with
      | Some d => parseDigits radix rest (Some (radix * default 0 acc + d))
      | None => acc
      end
  end.

Definition stripSign (s : string) : Z * string :=
  match s with
  | String "-" rest => (-1, rest)
  | String "+" rest => (1, rest)
  | _ => (1, s)
  end.

Definition stripHexPrefix (s : string) : Z * string :=
  match s with
  | String "0" (String "x" rest) => (16, rest)
  | String "0" (String "X" rest) => (16, rest)
  | _ => (10, s)
  end.

(** [parseInt(s)] with no radix argument. *)
Definition parseIntString (s : string) : number :=
  let '(sign, s1) := stripSign (trimStart s) in
  let '(radix, s2) := stripHexPrefix s1 in
  match parseDigits radix s2 None with
  | Some n => Num (sign * n)
  | None => NaN
  end.

Definition parseInt (v : value) : number := parseIntString (toString v).

(** *** JSON.stringify *)

Definition dquote : ascii := "034"%char.
Definition backslash : ascii := "092"%char.

Definition hexDigit (n : nat) : ascii :=
  ascii_of_nat (if Nat.ltb n 10 then 48 + n else 87 + n)%nat.

Definition escapeChar (c : ascii) : string :=
  let n := nat_of_ascii c in
  if Nat.eqb n 34 then String backslash (String dquote "")
  else if Nat.eqb n 92 then String backslash (String backslash "")
  else if Nat.eqb n 8 then String backslash "b"
  else if Nat.eqb n 9 then String backslash "t"
  else if Nat.eqb n 10 then String backslash "n"
  else if Nat.eqb n 12 then String backslash "f"
  else if Nat.eqb n 13 then String backslash "r"
  else if Nat.ltb n 32 then
    String backslash
      (String "u" (String "0" (String "0"
         (String (hexDigit (Nat.div n 16)) (String (hexDigit (Nat.modulo n 16)) "")))))
  else String c "".

Fixpoint escape (s : string) : string :=
  match s with
  | EmptyString => ""
  | String c rest => escapeChar c +:+ escape rest
  end.

(** [QuoteJSONString]. *)
Definition quote (s : string) : string :=
  String dquote (escape s +:+ String dquote "").

Definition member (k : string) (json : string) : string :=
  quote k +:+ ":" +:+ json.

(** [JSON.stringify(v)]; [None] is the [undefined] it returns for
    [undefined]. Inside an array [undefined] prints as [null], inside an
    object the property is left out. *)
Fixpoint stringify (v : value) : option string :=
  match v with
  | VUndefined => None
  | VNull => Some "null"
  | VBool b => Some (if b then "true" else "false")
  | VNum NaN => Some "null"
  | VNum (Num z) => Some (pretty z)
  | VStr s => Some (quote s)
  | VArr _ a =>
      Some ("[" +:+ join "," (map (fun x => default "null" (stringify x)) a) +:+ "]")
  | VObj _ ps =>
      Some ("{" +:+ join "," (omap (fun p => member (fst p) <$> stringify (snd p)) ps) +:+ "}")
  end.

(** [String.prototype.split(sep)] for a one-character separator. *)
Fixpoint splitAcc (sep : ascii) (s : string) (cur : string) : list string :=
  match s with
  | EmptyString => [cur]
  | String c rest =>
      if Ascii.eqb c sep then cur :: splitAcc sep rest ""
      else splitAcc sep rest (cur +:+ String c "")
  end.

Definition split (sep : ascii) (s : string) : list string := splitAcc sep s "".

(** [Array.prototype.sort(compare)] is stable, so for a consistent
    comparison function its result is the one of stable insertion: an
    element goes in front of the first element it does not compare greater
    than. *)
Fixpoint sortInsert {A : Type} (compare : A -> A -> Z) (x : A) (l : list A) : list A :=
  match l with
  | [] => [x]
  | y :: rest =>
      if 0 <? compare x y then y :: sortInsert compare x rest
      else x :: l
  end.

Fixpoint sort {A : Type} (compare : A -> A -> Z) (l : list A) : list A :=
  match l with
  | [] => []
  | x :: rest => sortInsert compare x (sort compare rest)
  end.

(** [Array.prototype.splice(start, 1)] on a copy: the array without the
    element at the (relative) start position. *)
Definition spliceOne {A : Type} (start : Z) (l : list A) : list A :=
  let len := Z.of_nat (length l) in
  let from := if start <? 0 then Z.max (len + start) 0 else Z.min start len in
  take (Z.to_nat from) l ++ drop (S (Z.to_nat from)) l.

End JS.

(** ** Option catalogues ([data/options]) *)

Module Options.

Record Option : Type := {
  value : string;
  label : string;
  apiValue : string
}.

(** Modelled from the spec: [getOptionByApiValue] of [data/options], which
    is not among the sources. It searches the option set for an entry whose
    wire representation equals the given raw value. *)
Definition getOptionByApiValue (options : list Option) (raw : JS.value) : option Option :=
  find (fun opt => JS.strictEq (JS.VStr (apiValue opt)) raw) options.

(** Modelled from the spec: [getApiValue] of [data/options], which is not
    among the sources. It looks the internal value up in the option set and
    returns its wire representation; a value that is not a member passes
    through unchanged. *)
Definition getApiValue (options : list Option) (v : JS.value) : JS.value :=
  match find (fun opt => JS.strictEq (JS.VStr (value opt)) v) options with
  | Some opt => JS.VStr (apiValue opt)
  | None => v
  end.

End Options.

(** ** Filters ([types]) *)

Module Filter.

(** [string | number | string[]]. *)
Inductive FilterValue : Type :=
| FStr (s : string)
| FNum (n : JS.number)
| FArr (items : list string).

Record FilterOption : Type := {
  field : string;
  operator : string;
  value : FilterValue
}.

Definition valueToJS (v : FilterValue) : JS.value :=
  match v with
  | FStr s => JS.VStr s
  | FNum n => JS.VNum n
  | FArr items => JS.VArr 0 (JS.VStr <$> items)
  end.

(** The filter as the object it is at run time, properties in the order of
    the interface. *)
Definition toJS (f : FilterOption) : JS.value :=
  JS.VObj 0 [("field", JS.VStr (field f));
             ("operator", JS.VStr (operator f));
             ("value", valueToJS (value f))].

End Filter.

Import JS.

(** ** The request deduplicator

    [activeRequests] is the [Map] from request key to the promise in
    flight. The request function acts on a world [W] that does not contain
    the map; it runs up to its first [await] and leaves a continuation [K]
    behind, which runs when the promise settles, followed by the [finally]
    callback that deletes the key. [started] records every invocation of a
    request function. *)

Section Deduplicator.
Context {W K : Type}.

Record Requests : Type := {
  activeRequests : gmap string nat;
  inFlight : gmap nat (string * K);
  nextPromise : nat;
  started : list (string * nat)
}.

Definition noRequests : Requests :=
  {| activeRequests := ∅; inFlight := ∅; nextPromise := 0; started := [] |}.

Definition makeRequest (key : string) (requestFn : W -> K * W)
    (r : Requests) (w : W) : nat * Requests * W :=
  match activeRequests r !! key with
  | Some promise => (promise, r, w)
  | None =>
      let promise := nextPromise r in
      let '(k, w') := requestFn w in
      (promise,
       {| activeRequests := <[key := promise]> (activeRequests r);
          inFlight := <[promise := (key, k)]> (inFlight r);
          nextPromise := S promise;
          started := started r ++ [(key, promise)] |},
       w')
  end.

(** The promise [promise] settles: its continuation runs, then the
    [finally] callback. *)
Definition settle (resume : K -> W -> W) (promise : nat)
    (r : Requests) (w : W) : Requests * W :=
  match inFlight r !! promise with
  | Some (key, k) =>
      ({| activeRequests := delete key (activeRequests r);
          inFlight := delete promise (inFlight r);
          nextPromise := nextPromise r;
          started := started r |},
       resume k w)
  | None => (r, w)
  end.

(** [activeRequests.current.clear()]. *)
Definition clearRequests (r : Requests) : Requests :=
  {| activeRequests := ∅;
     inFlight := inFlight r;
     nextPromise := nextPromise r;
     started := started r |}.

(** Callers in a row, each invoking [makeRequest] with a key and a request
    function of its own; the promises they are handed, in order. *)
Fixpoint callAll (calls : list (string * (W -> K * W))) (r : Requests) (w : W)
    : list nat * Requests * W :=
  match calls with
  | [] => ([], r, w)
  | (key, requestFn) :: rest =>
      let '(promise, r1, w1) := makeRequest key requestFn r w in
      let '(promises, r2, w2) := callAll rest r1 w1 in
      (promise :: promises, r2, w2)
  end.

(** [promise] is registered under [key] and its [finally] callback is
    still to run. *)
Definition pendingUnder (key : string) (promise : nat) (r : Requests) : Prop :=
  activeRequests r !! key = Some promise
  /\ (exists k, inFlight r !! promise = Some (key, k))
  /\ (promise < nextPromise r)%nat.

(** How many times a request function ran under [key]. *)
Definition runs (key : string) (r : Requests) : nat :=
  length (List.filter (fun e => String.eqb e.1 key) (started r)).

End Deduplicator.

Arguments Requests K : clear implicits.

(** [createRequestKey]: the type, a dash and the serialised parameters;
    an absent serialisation interpolates as [undefined]. *)
Definition createRequestKey (type : string) (params : value) : string :=
  type +:+ "-" +:+ default "undefined" (stringify params).

(** ** The provider's state *)

Definition Lead : Type := object.
Definition Todo : Type := object.

Inductive SortOrder : Type := asc | desc.

Definition sortOrderName (o : SortOrder) : string :=
  match o with asc => "asc" | desc => "desc" end.

Definition sortOrderUpper (o : SortOrder) : string :=
  match o with asc => "ASC" | desc => "DESC" end.

(** The single cache slot; [params] is [null] or the key of the stored
    page. *)
Module LeadsCache.
Record t : Type := {
  data : list Lead;
  params : option string;
  timestamp : Z;
  total : value
}.
End LeadsCache.

Inductive Effect : Type :=
| Fetch (method url : string) (query : list (string * string)) (body : option string)
| ToastSuccess (msg : string)
| ToastError (msg : string)
| ConsoleError (msg : string)
| DispatchEvent (name : string).

(** What an awaited [fetch] followed by [response.json()] produces. *)
Inductive Response : Type :=
| Rejected (e : JS.error)
| Replied (ok : bool) (json : result value).

(** The [useState] cells and the cache [useRef]; [arrays] holds the filter
    arrays by address, so that the array a caller passes and the array the
    state holds can be one and the same. *)
Record Store : Type := {
  leads : list Lead;
  todos : list Todo;
  leadFilters : nat;
  activeLeadId : option number;
  isLoading : bool;
  error : option string;
  globalLeadsCache : LeadsCache.t;
  arrays : gmap nat (list Filter.FilterOption);
  nextRef : nat;
  effects : list Effect
}.

Definition setLeads (v : list Lead) (s : Store) : Store :=
  {| leads := v; todos := todos s; leadFilters := leadFilters s;
     activeLeadId := activeLeadId s; isLoading := isLoading s; error := error s;
     globalLeadsCache := globalLeadsCache s; arrays := arrays s;
     nextRef := nextRef s; effects := effects s |}.

Definition setTodos (v : list Todo) (s : Store) : Store :=
  {| leads := leads s; todos := v; leadFilters := leadFilters s;
     activeLeadId := activeLeadId s; isLoading := isLoading s; error := error s;
     globalLeadsCache := globalLeadsCache s; arrays := arrays s;
     nextRef := nextRef s; effects := effects s |}.

Definition setActiveLeadId (v : option number) (s : Store) : Store :=
  {| leads := leads s; todos := todos s; leadFilters := leadFilters s;
     activeLeadId := v; isLoading := isLoading s; error := error s;
     globalLeadsCache := globalLeadsCache s; arrays := arrays s;
     nextRef := nextRef s; effects := effects s |}.

Definition setIsLoading (v : bool) (s : Store) : Store :=
  {| leads := leads s; todos := todos s; leadFilters := leadFilters s;
     activeLeadId := activeLeadId s; isLoading := v; error := error s;
     globalLeadsCache := globalLeadsCache s; arrays := arrays s;
     nextRef := nextRef s; effects := effects s |}.

Definition setError (v : option string) (s : Store) : Store :=
  {| leads := leads s; todos := todos s; leadFilters := leadFilters s;
     activeLeadId := activeLeadId s; isLoading := isLoading s; error := v;
     globalLeadsCache := globalLeadsCache s; arrays := arrays s;
     nextRef := nextRef s; effects := effects s |}.

Definition setCache (v : LeadsCache.t) (s : Store) : Store :=
  {| leads := leads s; todos := todos s; leadFilters := leadFilters s;
     activeLeadId := activeLeadId s; isLoading := isLoading s; error := error s;
     globalLeadsCache := v; arrays := arrays s;
     nextRef := nextRef s; effects := effects s |}.

(** In-place update of the array at [ref]. *)
Definition updateArray (f : list Filter.FilterOption -> list Filter.FilterOption)
    (ref : nat) (s : Store) : Store :=
  {| leads := leads s; todos := todos s; leadFilters := leadFilters s;
     activeLeadId := activeLeadId s; isLoading := isLoading s; error := error s;
     globalLeadsCache := globalLeadsCache s; arrays := alter f ref (arrays s);
     nextRef := nextRef s; effects := effects s |}.

Definition readArray (ref : nat) (s : Store) : list Filter.FilterOption :=
  default [] (arrays s !! ref).

(** [setLeadFiltersState(v)] with a freshly allocated array [v]. *)
Definition setLeadFiltersState (v : list Filter.FilterOption) (s : Store) : Store :=
  {| leads := leads s; todos := todos s; leadFilters := nextRef s;
     activeLeadId := activeLeadId s; isLoading := isLoading s; error := error s;
     globalLeadsCache := globalLeadsCache s;
     arrays := <[nextRef s := v]> (arrays s);
     nextRef := S (nextRef s); effects := effects s |}.

Definition reserve (n : nat) (s : Store) : Store :=
  {| leads := leads s; todos := todos s; leadFilters := leadFilters s;
     activeLeadId := activeLeadId s; isLoading := isLoading s; error := error s;
     globalLeadsCache := globalLeadsCache s; arrays := arrays s;
     nextRef := (nextRef s + n)%nat; effects := effects s |}.

Definition emit (e : Effect) (s : Store) : Store :=
  {| leads := leads s; todos := todos s; leadFilters := leadFilters s;
     activeLeadId := activeLeadId s; isLoading := isLoading s; error := error s;
     globalLeadsCache := globalLeadsCache s; arrays := arrays s;
     nextRef := nextRef s; effects := effects s ++ [e] |}.

(** The filters the state currently holds. *)
Definition currentLeadFilters (s : Store) : list Filter.FilterOption :=
  readArray (leadFilters s) s.

Definition isFetch (e : Effect) : bool :=
  match e with
  | Fetch _ _ _ _ => true
  | _ => false
  end.

(** The remote requests issued so far. *)
Definition requestsIssued (s : Store) : list Effect :=
  List.filter isFetch (effects s).

(** The parameters of [fetchLeads], each optional; [currentFilters] is the
    address of the array passed. Serialised, the properties present appear
    in the order of the parameter type. *)
Record FetchLeadsParams : Type := {
  page : option number;
  perPage : option number;
  sortField : option string;
  sortOrder : option SortOrder;
  search : option string;
  currentFilters : option nat
}.

(** What the continuation of a leads request has captured. *)
Record LeadsRequest : Type := { cacheKey : string }.

Record AppState : Type := {
  store : Store;
  requests : Requests LeadsRequest
}.

(** What a call of [fetchLeads] hands back before anything is awaited: the
    cached page, or the promise of the request in flight. *)
Inductive Fetched : Type :=
| Cached (data : list Lead) (total : value)
| Awaiting (promise : nat).

Definition FETCH_API_URL : string := "https://digiheadway.in/back/fetch.php".
Definition MODIFY_API_URL : string := "https://digiheadway.in/back/modify.php".

Definition errorMessage (e : JS.error) : string :=
  match e with
  | TypeError m | SyntaxError m | Error m => m
  end.

Section AppContext.

(** [String.prototype.localeCompare], which depends on the host's
    collation. *)
Variable localeCompare : string -> string -> Z.
(** [JSON.parse] on a string; [None] when it throws. The addresses inside
    the parsed value are the parser's. *)
Variable JSON_parse : string -> option value.
(** Whether [ToNumber] of a string is the number 1. *)
Variable stringIsOne : string -> bool.
(** The catalogues of [data/options], which are not among the sources. *)
Variables stageOptions priorityOptions sourceOptions : list Options.Option.

(** [v == 1]. *)
Definition looseEqOne (v : value) : bool :=
  match v with
  | VNum n => number_eqb n (Num 1)
  | VBool b => b
  | VStr s => stringIsOne s
  | VArr _ _ => stringIsOne (toString v)
  | _ => false
  end.

Definition hasOption (options : list Options.Option) (v : value) : bool :=
  existsb (fun opt => strictEq (VStr (Options.value opt)) v) options.

(** [getOptionByApiValue(options, raw)?.value || fallback]. *)
Definition optionValueOr (options : list Options.Option) (raw : value)
    (fallback : string) : value :=
  or_else
    (match Options.getOptionByApiValue options raw with
     | Some opt => VStr (Options.value opt)
     | None => VUndefined
     end)
    (VStr fallback).

(** [transformApiLeadToLead]; the object literal for [customFields] is
    allocated at [ref], the array of labels at [S ref]. *)
Definition transformApiLeadToLead (ref : nat) (apiLead : value) : result Lead :=
  rawId ← get apiLead "id";
  let id := parseInt rawId in
  rawName ← get apiLead "name";
  let name := or_else rawName (VStr "") in
  rawPhone ← get apiLead "phone";
  let phone := or_else rawPhone (VStr "") in
  alter_contact ← get apiLead "alter_contact";
  alternative_contact_details ← get apiLead "alternative_contact_details";
  alternate_phone ← get apiLead "alternate_phone";
  let alternatePhone :=
    or_else (or_else (or_else alter_contact alternative_contact_details)
               alternate_phone) (VStr "") in
  rawAddress ← get apiLead "address";
  let address := or_else rawAddress (VStr "") in
  rawAbout ← get apiLead "about";
  about_him ← get apiLead "about_him";
  let about := or_else (or_else rawAbout about_him) (VStr "") in
  rawNote ← get apiLead "note";
  let note := or_else rawNote (VStr "") in
  rawBudget ← get apiLead "budget";
  let budget := or_else (VNum (parseInt rawBudget)) (VNum (Num 0)) in
  rawStage ← get apiLead "stage";
  let stage :=
    if hasOption stageOptions rawStage then rawStage
    else optionValueOr stageOptions rawStage "Fresh Lead" in
  rawPriority ← get apiLead "priority";
  let priority :=
    if hasOption priorityOptions rawPriority then rawPriority
    else optionValueOr priorityOptions rawPriority "General" in
  custom_fields ← get apiLead "custom_fields";
  let customFields :=
    if truthy custom_fields then
      match JSON_parse (toString custom_fields) with
      | Some parsed => parsed
      | None => VObj ref []
      end
    else VObj ref [] in
  is_in_pipeline ← get apiLead "is_in_pipeline";
  rawLabels ← get apiLead "labels";
  labels ←
    (if truthy rawLabels then
       match rawLabels with
       | VStr s => Ok (VArr (S ref) (VStr <$> split "," s))
       | _ => Throw (TypeError "apiLead.labels.split is not a function")
       end
     else Ok (VArr (S ref) []));
  requirement ← get apiLead "requirement";
  listname ← get apiLead "listname";
  source ← get apiLead "source";
  type ← get apiLead "type";
  assignd_to ← get apiLead "assignd_to";
  admin_id ← get apiLead "admin_id";
  email ← get apiLead "email";
  lead_scrore ← get apiLead "lead_scrore";
  last_note ← get apiLead "last_note";
  created_at ← get apiLead "created_at";
  updated_at ← get apiLead "updated_at";
  Ok [("id", VNum id);
      ("isInPipeline", VBool (looseEqOne is_in_pipeline));
      ("name", name);
      ("phone", phone);
      ("alternatePhone", alternatePhone);
      ("address", address);
      ("labels", labels);
      ("stage", stage);
      ("priority", priority);
      ("requirement", or_else requirement (VStr ""));
      ("budget", budget);
      ("about", about);
      ("note", note);
      ("listName", or_else listname (VStr ""));
      ("source", or_else source (VStr "Other"));
      ("customFields", customFields);
      ("type", or_else type (VStr "lead"));
      ("assignedTo", or_else assignd_to (VStr ""));
      ("adminId", or_else (VNum (parseInt admin_id)) (VNum (Num 0)));
      ("email", or_else email (VStr ""));
      ("leadScore", or_else (VNum (parseInt lead_scrore)) (VNum (Num 0)));
      ("lastNote", or_else last_note (VStr ""));
      ("createdAt", created_at);
      ("updatedAt", updated_at)].

(** [items.map(transformApiLeadToLead)], allocating from [ref] on. *)
Fixpoint transformAll (ref : nat) (items : list value) : result (list Lead) :=
  match items with
  | [] => Ok []
  | item :: rest =>
      lead ← transformApiLeadToLead ref item;
      others ← transformAll (S (S ref)) rest;
      Ok (lead :: others)
  end.

(** *** fetchLeads *)

(** The comparison function handed to [sort]. *)
Definition byField (a b : Filter.FilterOption) : Z :=
  localeCompare (Filter.field a) (Filter.field b).

Definition filtersToJS (filters : list Filter.FilterOption) : value :=
  VArr 0 (Filter.toJS <$> filters).

(** The serialised object literal of the cache key, from the effective
    parameter values and the filter array as [sort] returned it. An
    object always serialises to a string. *)
Definition leadsCacheKey (page perPage : number) (sortField : string)
    (sortOrder : SortOrder) (search : string)
    (filters : list Filter.FilterOption) : string :=
  default ""
    (stringify (VObj 0 [("page", VNum page);
                        ("perPage", VNum perPage);
                        ("sortField", VStr sortField);
                        ("sortOrder", VStr (sortOrderName sortOrder));
                        ("search", VStr search);
                        ("filters", filtersToJS filters)])).

(** The [params] argument as the object the caller built. *)
Definition paramsToJS (st : Store) (params : FetchLeadsParams) : value :=
  VObj 0 (omap id
    [ (fun n => ("page", VNum n)) <$> page params;
      (fun n => ("perPage", VNum n)) <$> perPage params;
      (fun f => ("sortField", VStr f)) <$> sortField params;
      (fun o => ("sortOrder", VStr (sortOrderName o))) <$> sortOrder params;
      (fun q => ("search", VStr q)) <$> search params;
      (fun ref => ("currentFilters", filtersToJS (readArray ref st)))
        <$> currentFilters params ]).

(** The query parameters one filter contributes. *)
Definition filterQuery (f : Filter.FilterOption) : list (string * string) :=
  let v := Filter.valueToJS (Filter.value f) in
  let name := Filter.field f in
  if String.eqb name "stage" then
    let stageApiValue := Options.getApiValue stageOptions v in
    let finalStageValue :=
      if strictEq stageApiValue v && negb (hasOption stageOptions v)
      then VStr "Other" else stageApiValue in
    [("stage", toString finalStageValue)]
  else if String.eqb name "priority" then
    [("priority", toString (Options.getApiValue priorityOptions v))]
  else if String.eqb name "source" then
    [("source", toString (Options.getApiValue sourceOptions v))]
  else if String.eqb name "assignedTo" then [("assignd_to", toString v)]
  else if String.eqb name "propertyType" then [("type", toString v)]
  else if String.eqb name "budget" then
    if String.eqb (Filter.operator f) ">=" then [("min_budget", toString v)]
    else if String.eqb (Filter.operator f) "<=" then [("max_budget", toString v)]
    else []
  else if String.eqb name "isInPipeline" then [("is_in_pipeline", toString v)]
  else [].

(** The request function of [fetchLeads] up to its [await fetch]. *)
Definition leadsRequestFn (page perPage : number) (sortField : string)
    (sortOrder : SortOrder) (search : string) (filtersRef : nat)
    (key : string) (st : Store) : LeadsRequest * Store :=
  let st1 := setError None (setIsLoading true st) in
  let queryParams :=
    ([("resource", "contacts");
     ("page", numberToString page);
     ("per_page", numberToString perPage);
     ("sort_by", if String.eqb sortField "created_at" then "created_at" else sortField);
     ("sort_dir", sortOrderUpper sortOrder)]
    ++ (if truthy (VStr search) then [("q", search)] else [])
    ++ flat_map filterQuery (readArray filtersRef st1))%list in
  ({| cacheKey := key |}, emit (Fetch "GET" FETCH_API_URL queryParams None) st1).

(** The array [currentFilters] is bound to: the one passed or, by
    default, the very array the state holds. *)
Definition filtersRefOf (params : FetchLeadsParams) (st : Store) : nat :=
  default (leadFilters st) (currentFilters params).

(** The cache key for [params] once [sort] has returned [sorted]. *)
Definition cacheKeyOf (params : FetchLeadsParams)
    (sorted : list Filter.FilterOption) : string :=
  leadsCacheKey (default (Num 1) (page params)) (default (Num 20) (perPage params))
    (default "created_at" (sortField params)) (default desc (sortOrder params))
    (default "" (search params)) sorted.

(** The condition under which the cached page is served. *)
Definition cacheHit (now : Z) (key : string) (cache : LeadsCache.t) : bool :=
  let cacheAge := now - LeadsCache.timestamp cache in
  let cacheValid := cacheAge <? 2 * 60 * 1000 in
  (0 <? length (LeadsCache.data cache))%nat
  && bool_decide (LeadsCache.params cache = Some key)
  && cacheValid.

Definition leadsRequestKey (params : FetchLeadsParams) (st : Store) : string :=
  createRequestKey "leads" (paramsToJS st params).

(** [currentFilters.sort(...)]: the array is reordered where it lies. *)
Definition sortInPlace (params : FetchLeadsParams) (st : Store) : Store :=
  updateArray (sort byField) (filtersRefOf params st) st.

(** [fetchLeads(params)] at clock reading [now], up to the cached answer
    or the first [await]. [sort] reorders the array where it lies, before
    either key is computed. *)
Definition fetchLeads (now : Z) (params : FetchLeadsParams) (s : AppState)
    : Fetched * AppState :=
  let filtersRef := filtersRefOf params (store s) in
  let st1 := sortInPlace params (store s) in
  let key := cacheKeyOf params (readArray filtersRef st1) in
  let cache := globalLeadsCache st1 in
  if cacheHit now key cache then
    (Cached (LeadsCache.data cache)
       (or_else (LeadsCache.total cache) (VNum (Num 0))),
     {| store := setLeads (LeadsCache.data cache) st1; requests := requests s |})
  else
    let '(promise, r, st2) :=
      makeRequest (leadsRequestKey params st1)
        (leadsRequestFn (default (Num 1) (page params))
           (default (Num 20) (perPage params))
           (default "created_at" (sortField params))
           (default desc (sortOrder params))
           (default "" (search params)) filtersRef key)
        (requests s) st1 in
    (Awaiting promise, {| store := st2; requests := r |}).

(** [apiResponse.data.map(transformApiLeadToLead)]. *)
Definition mapLeads (ref : nat) (data : value) : result (list Lead) :=
  match data with
  | VArr _ items => transformAll ref items
  | VUndefined | VNull => Throw (TypeError "Cannot read properties of undefined")
  | _ => Throw (TypeError "apiResponse.data.map is not a function")
  end.

(** [meta?.total]. *)
Definition metaTotal (meta : value) : value :=
  match meta with
  | VObj _ ps => lookupProp "total" ps
  | _ => VUndefined
  end.

(** The [try] block of the request function after [await fetch]. *)
Definition leadsReply (now : Z) (k : LeadsRequest) (ref : nat) (resp : Response)
    : result LeadsCache.t :=
  match resp with
  | Rejected e => Throw e
  | Replied ok json =>
      if negb ok then Throw (Error "Failed to fetch leads")
      else
        apiResponse ← json;
        success ← get apiResponse "success";
        if truthy success then
          data ← get apiResponse "data";
          transformedLeads ← mapLeads ref data;
          meta ← get apiResponse "meta";
          Ok {| LeadsCache.data := transformedLeads;
                LeadsCache.params := Some (cacheKey k);
                LeadsCache.timestamp := now;
                LeadsCache.total := or_else (metaTotal meta) (VNum (Num 0)) |}
        else
          message ← get apiResponse "message";
          Throw (Error (toString (or_else message (VStr "Failed to fetch leads"))))
  end.

(** The rest of the request function, run when the response arrives at
    clock reading [now]. *)
Definition leadsResponse (now : Z) (resp : Response) (k : LeadsRequest)
    (st : Store) : Store :=
  setIsLoading false
    match leadsReply now k (nextRef st) resp with
    | Ok entry =>
        setLeads (LeadsCache.data entry)
          (setCache entry (reserve (2 * length (LeadsCache.data entry)) st))
    | Throw e =>
        emit (ConsoleError "Error fetching leads:")
          (setError (Some (errorMessage e)) st)
    end.

Definition settleLeads (now : Z) (promise : nat) (resp : Response)
    (s : AppState) : AppState :=
  let '(r, st) := settle (leadsResponse now resp) promise (requests s) (store s) in
  {| store := st; requests := r |}.

(** *** Mutations *)

Definition onStore (f : Store -> Store) (s : AppState) : AppState :=
  {| store := f (store s); requests := requests s |}.

Definition emptyCache : LeadsCache.t :=
  {| LeadsCache.data := []; LeadsCache.params := None;
     LeadsCache.timestamp := 0; LeadsCache.total := VUndefined |}.

(** [invalidateLeadsCache(options)]; [skipEvent] is [options?.skipEvent]. *)
Definition invalidateLeadsCache (skipEvent : bool) (s : AppState) : AppState :=
  let st := setCache emptyCache (store s) in
  {| store := if skipEvent then st
              else emit (DispatchEvent "leads-cache-invalidated") st;
     requests := clearRequests (requests s) |}.

Definition findLead (id : number) (l : list Lead) : option Lead :=
  find (fun lead => strictEq (lookupProp "id" lead) (VNum id)) l.

(** The predicate of [hasChanges] on one entry of the update. *)
Definition fieldChanged (currentLead : Lead) (entry : string * value) : bool :=
  let '(key, v) := entry in
  if isArray v then
    negb (bool_decide (stringify v = stringify (lookupProp key currentLead)))
  else negb (strictEq v (lookupProp key currentLead)).

Definition hasChanges (currentLead : Lead) (leadUpdate : object) : bool :=
  existsb (fieldChanged currentLead) leadUpdate.

(** Property write [o[k] = v]: in place when the key exists, appended
    otherwise (which is where JavaScript enumerates a new key that is not
    integer-like). *)
Fixpoint setProp (k : string) (v : value) (o : object) : object :=
  match o with
  | [] => [(k, v)]
  | (k', x) :: rest =>
      if String.eqb k k' then (k', v) :: rest else (k', x) :: setProp k v rest
  end.

Fixpoint indexed (i : nat) (l : list value) : object :=
  match l with
  | [] => []
  | x :: rest => (pretty i, x) :: indexed (S i) rest
  end.

Fixpoint chars (s : string) : list value :=
  match s with
  | EmptyString => []
  | String c rest => VStr (String c "") :: chars rest
  end.

(** The own enumerable properties a spread copies, in the order they are
    listed here (JavaScript lists integer-like keys first). *)
Definition ownProps (v : value) : object :=
  match v with
  | VObj _ ps => ps
  | VArr _ a => indexed 0 a
  | VStr s => indexed 0 (chars s)
  | _ => []
  end.

(** One [...source] of an object literal. *)
Definition spread (target source : object) : object :=
  fold_left (fun acc p => setProp p.1 p.2 acc) source target.

Definition defined (v : value) : bool := negb (strictEq v VUndefined).

(** [v.join(",")]. *)
Definition joinComma (v : value) : result value :=
  match v with
  | VArr _ _ => Ok (VStr (toString v))
  | VUndefined | VNull => Throw (TypeError "Cannot read properties of undefined")
  | _ => Throw (TypeError "join is not a function")
  end.

(** [v.toString()]. *)
Definition callToString (v : value) : result value :=
  match v with
  | VUndefined | VNull => Throw (TypeError "Cannot read properties of undefined")
  | _ => Ok (VStr (toString v))
  end.

(** [if (leadUpdate.k !== undefined) apiUpdate.name = conv(leadUpdate.k)]. *)
Definition copyField (leadUpdate : object) (k name : string)
    (conv : value -> result value) (apiUpdate : object) : result object :=
  let v := lookupProp k leadUpdate in
  if defined v then x ← conv v; Ok (setProp name x apiUpdate)
  else Ok apiUpdate.

Definition raw (v : value) : result value := Ok v.

(** The body of the PUT request. *)
Definition buildApiUpdate (id : number) (currentLead : Lead)
    (leadUpdate : object) : result object :=
  let copy := copyField leadUpdate in
  a ← copy "isInPipeline" "is_in_pipeline"
        (fun v => Ok (VNum (Num (if truthy v then 1 else 0))))
        [("id", VStr (numberToString id))];
  a ← copy "name" "name" raw a;
  a ← copy "phone" "phone" raw a;
  a ← copy "alternatePhone" "alter_contact" raw a;
  a ← copy "address" "address" raw a;
  a ← copy "labels" "labels" joinComma a;
  a ← copy "stage" "stage" (fun v => Ok (Options.getApiValue stageOptions v)) a;
  a ← copy "priority" "priority"
        (fun v => Ok (Options.getApiValue priorityOptions v)) a;
  a ← copy "requirement" "requirement" raw a;
  a ← copy "budget" "budget" callToString a;
  a ← copy "about" "about" raw a;
  a ← copy "note" "note" raw a;
  a ← copy "listName" "listname" raw a;
  a ← copy "source" "source" (fun v => Ok (Options.getApiValue sourceOptions v)) a;
  a ← copy "customFields" "custom_fields"
        (fun v =>
           Ok (match stringify
                       (VObj 0 (spread
                                  (spread [] (ownProps (lookupProp "customFields" currentLead)))
                                  (ownProps v))) with
               | Some json => VStr json
               | None => VUndefined
               end)) a;
  a ← copy "type" "type" raw a;
  a ← copy "assignedTo" "assignd_to" raw a;
  a ← copy "email" "email" raw a;
  a ← copy "leadScore" "lead_scrore" raw a;
  copy "lastNote" "last_note" raw a.

Definition isActive (id : number) (st : Store) : bool :=
  match activeLeadId st with
  | Some active => number_eqb active id
  | None => false
  end.

Definition modifyQuery (id : number) : list (string * string) :=
  [("resource", "contacts"); ("id", numberToString id)].

(** What the [catch] of [updateLead] does before it rethrows. *)
Definition reportFailure (e : JS.error) (st : Store) : Store :=
  setError (Some (errorMessage e)) (emit (ToastError (errorMessage e)) st).

(** How far [updateLead] gets before its [await]: it has returned or
    thrown, or the PUT is out and the rest waits for the reply, with
    [currentLead] captured. *)
Inductive UpdateStarted : Type :=
| Settled (r : result unit)
| Sent (currentLead : Lead).

(** [updateLead(id, leadUpdate)] up to its [await fetch]. *)
Definition updateLeadRequest (id : number) (leadUpdate : object) (s : AppState)
    : UpdateStarted * AppState :=
  match findLead id (leads (store s)) with
  | None =>
      (Settled (Throw (Error "Lead not found")),
       onStore (reportFailure (Error "Lead not found")) s)
  | Some currentLead =>
      if negb (hasChanges currentLead leadUpdate) then (Settled (Ok ()), s)
      else
        match buildApiUpdate id currentLead leadUpdate with
        | Throw e => (Settled (Throw e), onStore (reportFailure e) s)
        | Ok apiUpdate =>
            (Sent currentLead,
             onStore (emit (Fetch "PUT" MODIFY_API_URL (modifyQuery id)
                              (stringify (VObj 0 apiUpdate)))) s)
        end
  end.

(** The rest of [updateLead], run on the state [s] the reply [resp] arrives
    in. [rendered] is the state of the render the closure was created in:
    [leads] and [activeLeadId] are read from it. [nowISO] is
    [new Date().toISOString()]. *)
Definition updateLeadReply (nowISO : string) (id : number) (leadUpdate : object)
    (currentLead : Lead) (rendered : Store) (resp : Response) (s : AppState)
    : result unit * AppState :=
  let attempt : result AppState :=
    match resp with
    | Rejected e => Throw e
    | Replied _ json =>
        data ← json;
        success ← get data "success";
        if truthy success then
          let updatedLead :=
            spread (spread (spread [] currentLead) leadUpdate)
              [("updatedAt", VStr nowISO)] in
          let s1 :=
            onStore (setLeads
              ((fun lead =>
                  if strictEq (lookupProp "id" lead) (VNum id)
                  then updatedLead else lead) <$> leads rendered)) s in
          let s2 := invalidateLeadsCache (isActive id rendered) s1 in
          Ok (onStore (emit (ToastSuccess "Lead updated successfully")) s2)
        else
          message ← get data "message";
          Throw (Error (toString (or_else message (VStr "Failed to update lead"))))
    end in
  match attempt with
  | Ok s' => (Ok (), s')
  | Throw e => (Throw e, onStore (reportFailure e) s)
  end.

(** [updateLead] with nothing happening between the request and its
    reply. *)
Definition updateLead (nowISO : string) (id : number) (leadUpdate : object)
    (resp : Response) (s : AppState) : result unit * AppState :=
  match updateLeadRequest id leadUpdate s with
  | (Settled r, s') => (r, s')
  | (Sent currentLead, s') =>
      updateLeadReply nowISO id leadUpdate currentLead (store s) resp s'
  end.

(** [deleteLead(id)] up to its [await fetch]. *)
Definition deleteLeadRequest (id : number) (s : AppState) : AppState :=
  onStore (emit (Fetch "DELETE" MODIFY_API_URL (modifyQuery id) None)) s.

(** The rest of [deleteLead], run on the state [s] the reply [resp] arrives
    in. [rendered] is the state of the render the closure was created in:
    [leads], [todos] and [activeLeadId] are read from it. *)
Definition deleteLeadReply (id : number) (rendered : Store) (resp : Response)
    (s : AppState) : AppState :=
  let attempt : result AppState :=
    match resp with
    | Rejected e => Throw e
    | Replied _ json =>
        data ← json;
        success ← get data "success";
        if truthy success then
          Ok (onStore (fun st =>
                let st1 :=
                  setLeads (List.filter
                              (fun lead => negb (strictEq (lookupProp "id" lead) (VNum id)))
                              (leads rendered)) st in
                let st2 :=
                  setTodos (List.filter
                              (fun todo => negb (strictEq (lookupProp "leadId" todo) (VNum id)))
                              (todos rendered)) st1 in
                let st3 := if isActive id rendered then setActiveLeadId None st2 else st2 in
                emit (ToastSuccess "Lead deleted successfully") st3) s)
        else
          message ← get data "message";
          Ok (onStore (emit (ToastError
                 (toString (or_else message (VStr "Failed to delete lead"))))) s)
    end in
  match attempt with
  | Ok s' => s'
  | Throw _ =>
      onStore (fun st => emit (ToastError "Failed to delete lead")
                           (emit (ConsoleError "Error deleting lead:") st)) s
  end.

(** [deleteLead] with nothing happening between the request and its
    reply. *)
Definition deleteLead (id : number) (resp : Response) (s : AppState) : AppState :=
  deleteLeadReply id (store s) resp (deleteLeadRequest id s).

(** *** Filter operations *)

Definition setLeadFilters (newFilters : list Filter.FilterOption) (s : AppState)
    : AppState :=
  onStore (setLeadFiltersState newFilters) s.

(** [removeLeadFilter(index)]: a copy of the held array, spliced. *)
Definition removeLeadFilter (index : Z) (s : AppState) : AppState :=
  onStore (fun st => setLeadFiltersState (spliceOne index (currentLeadFilters st)) st) s.

(** [clearLeadFilters] of [contexts/AppContext.tsx]. *)
Definition clearLeadFilters (s : AppState) : AppState :=
  onStore (setLeadFiltersState []) s.

End AppContext.

(** [clearLeadFilters] of the variant of the provider in
    [src/unnamed/part_000], which also resets the cache slot. *)
Module Part000.

Definition clearLeadFilters (s : AppState) : AppState :=
  onStore (fun st => setCache emptyCache (setLeadFiltersState [] st)) s.

End Part000.

(** A collation for closed examples: code units, left to right. *)
Definition codeUnitCompare (a b : string) : Z :=
  match String.compare a b with
  | Lt => -1
  | Eq => 0
  | Gt => 1
  end.

(** What a call that is not answered from the cache comes to, by the map
    of requests alone: when a promise is registered under its request key
    it is handed that promise and issues nothing; when none is registered
    (whether or not a request under the key is still in flight, its key
    having been cleared from the map) it issues one GET and is handed the
    new promise. *)
Definition deduplicated (key : string) (s s' : AppState) (outcome : Fetched) : Prop :=
  match activeRequests (requests s) !! key with
  | Some promise =>
      outcome = Awaiting promise
      /\ requestsIssued (store s') = requestsIssued (store s)
  | None =>
      outcome = Awaiting (nextPromise (requests s))
      /\ exists query,
           requestsIssued (store s')
           = (requestsIssued (store s) ++ [Fetch "GET" FETCH_API_URL query None])%list
  end.

(** The equality the no-op check of [updateLead] uses for one supplied
    field: arrays by their serialisation, everything else by [===]. *)
Definition unchangedField (currentLead : Lead) (entry : string * value) : Prop :=
  match entry.2 with
  | VArr _ _ => stringify entry.2 = stringify (lookupProp entry.1 currentLead)
  | v => strictEq v (lookupProp entry.1 currentLead) = true
  end.

(** The server confirmed the deletion: the reply parsed and its [success]
    is truthy. *)
Definition confirmed (resp : Response) : bool :=
  match resp with
  | Replied _ (Ok data) =>
      match get data "success" with
      | Ok success => truthy success
      | Throw _ => false
      end
  | _ => false
  end.

(** ** Example states *)

Definition noParams : FetchLeadsParams :=
  {| page := None; perPage := None; sortField := None; sortOrder := None;
     search := None; currentFilters := None |}.

Definition withFilters (ref : nat) : FetchLeadsParams :=
  {| page := None; perPage := None; sortField := None; sortOrder := None;
     search := None; currentFilters := Some ref |}.

Definition pageOne : FetchLeadsParams :=
  {| page := Some (Num 1); perPage := None; sortField := None; sortOrder := None;
     search := None; currentFilters := None |}.

Definition minBudget : Filter.FilterOption :=
  {| Filter.field := "budget"; Filter.operator := ">=";
     Filter.value := Filter.FNum (Num 10) |}.

Definition maxBudget : Filter.FilterOption :=
  {| Filter.field := "budget"; Filter.operator := "<=";
     Filter.value := Filter.FNum (Num 99) |}.

Definition stageFilter : Filter.FilterOption :=
  {| Filter.field := "stage"; Filter.operator := "=";
     Filter.value := Filter.FStr "Fresh Lead" |}.

Definition priorityFilter : Filter.FilterOption :=
  {| Filter.field := "priority"; Filter.operator := "=";
     Filter.value := Filter.FStr "High" |}.

Definition leadSeven : Lead :=
  [("id", VNum (Num 7)); ("name", VStr "Asha"); ("budget", VNum (Num 50));
   ("labels", VArr 1 [VStr "hot"; VStr "resale"])].

Definition leadEight : Lead :=
  [("id", VNum (Num 8)); ("name", VStr "Bilal"); ("budget", VNum (Num 0));
   ("labels", VArr 2 [])].

Definition todoThree : Todo := [("id", VNum (Num 3)); ("leadId", VNum (Num 7))].
Definition todoFour : Todo := [("id", VNum (Num 4)); ("leadId", VNum (Num 7))].
Definition todoFive : Todo := [("id", VNum (Num 5)); ("leadId", VNum (Num 8))].

(** A request function that leaves a note in a log, for closed examples of
    the deduplicator. *)
Definition note (label : string) (log : list string) : unit * list string :=
  (tt, (log ++ [label])%list).

(** A provider holding [held] as its lead filters (at address 0),
    [spare] as a second array (at address 1), the cache slot [cache] and
    the requests [active] in flight. *)
Definition provider (held spare : list Filter.FilterOption) (cache : LeadsCache.t)
    (active : list (string * nat)) : AppState :=
  {| store :=
       {| leads := [leadSeven; leadEight];
          todos := [todoThree; todoFour; todoFive];
          leadFilters := 0;
          activeLeadId := Some (Num 7);
          isLoading := false;
          error := None;
          globalLeadsCache := cache;
          arrays := <[1%nat := spare]> (<[0%nat := held]> ∅);
          nextRef := 3;
          effects := [] |};
     requests :=
       {| activeRequests := list_to_map active;
          inFlight := list_to_map ((fun e => (e.2, (e.1, {| cacheKey := "" |}))) <$> active);
          nextPromise := 100;
          started := active |} |}.

(** A page stored at clock reading [at] under the key of [params] for the
    sorted filters [sorted]. *)
Definition storedPage (params : FetchLeadsParams)
    (sorted : list Filter.FilterOption) (page : list Lead) (at_ : Z) : LeadsCache.t :=
  {| LeadsCache.data := page;
     LeadsCache.params := Some (cacheKeyOf params sorted);
     LeadsCache.timestamp := at_;
     LeadsCache.total := VNum (Num 42) |}.

(** ** Further definitions: runs of the deduplicator, kinds of replies *)

(** What can happen to the deduplicator: a caller comes, or a promise in
    flight settles. *)
Inductive RequestEvent (W K : Type) : Type :=
| Call (key : string) (requestFn : W -> K * W)
| Settle (promise : nat).
Arguments Call {W K} key requestFn.
Arguments Settle {W K} promise.

Definition requestStep {W K : Type} (resume : K -> W -> W)
    (rw : Requests K * W) (e : RequestEvent W K) : Requests K * W :=
  match e with
  | Call key requestFn =>
      let '(_, r, w) := makeRequest key requestFn rw.1 rw.2 in (r, w)
  | Settle promise => settle resume promise rw.1 rw.2
  end.

Definition runRequests {W K : Type} (resume : K -> W -> W)
    (events : list (RequestEvent W K)) (rw : Requests K * W) : Requests K * W :=
  fold_left (requestStep resume) events rw.

(** The same run, keeping what each caller is handed ([None] stands at
    the place of a settlement). *)
Fixpoint serve {W K : Type} (resume : K -> W -> W)
    (events : list (RequestEvent W K)) (r : Requests K) (w : W)
    : list (option nat) * Requests K * W :=
  match events with
  | [] => ([], r, w)
  | Call key requestFn :: rest =>
      let '(promise, r1, w1) := makeRequest key requestFn r w in
      let '(handed, r2, w2) := serve resume rest r1 w1 in
      (Some promise :: handed, r2, w2)
  | Settle promise :: rest =>
      let '(r1, w1) := settle resume promise r w in
      let '(handed, r2, w2) := serve resume rest r1 w1 in
      (None :: handed, r2, w2)
  end.

(** The event is a caller under [key]. *)
Definition callsUnder {W K : Type} (key : string) (e : RequestEvent W K) : bool :=
  match e with
  | Call key' _ => String.eqb key' key
  | Settle _ => false
  end.

(** None of the settlements among [events] is that of an operation in
    flight under [key] in [r]. *)
Definition settlesOthers {W K : Type} (key : string) (r : Requests K)
    (events : list (RequestEvent W K)) : Prop :=
  Forall (fun e => match e with
                   | Settle promise => forall k, inFlight r !! promise <> Some (key, k)
                   | Call _ _ => True
                   end) events.

(** What an event is handed when the callers under [key] are handed
    [promise]. *)
Definition handedUnder {W K : Type} (key : string) (promise : nat)
    (e : RequestEvent W K) (handed : option nat) : Prop :=
  match e with
  | Call key' _ => key' = key -> handed = Some promise
  | Settle _ => handed = None
  end.

(** Every registered key points at an operation in flight under that key,
    and every operation in flight is the one registered under its key. *)
Definition wellFormed {K : Type} (r : Requests K) : Prop :=
  (forall key promise, activeRequests r !! key = Some promise ->
     exists k, inFlight r !! promise = Some (key, k))
  /\ (forall promise key k, inFlight r !! promise = Some (key, k) ->
        activeRequests r !! key = Some promise /\ (promise < nextPromise r)%nat).

(** The reply does not carry a page: the transport failed, the status is
    not ok, the body does not parse, or its [success] is falsy or cannot be
    read. *)
Definition refused (resp : Response) : bool :=
  match resp with
  | Rejected _ => true
  | Replied ok json =>
      negb ok
      || match json with
         | Throw _ => true
         | Ok body =>
             match get body "success" with
             | Ok success => negb (truthy success)
             | Throw _ => true
             end
         end
  end.

(** An element of the [data] array the transformer throws on: [null] or
    [undefined], or a record whose [labels] is truthy and not a string. *)
Definition malformed (item : value) : Prop :=
  match item with
  | VUndefined | VNull => True
  | VObj _ props =>
      truthy (lookupProp "labels" props) = true
      /\ forall s, lookupProp "labels" props <> VStr s
  | _ => False
  end.




(** Decimal digits, and the part of a string in front of its first
    comma. *)
Definition isDigit (c : ascii) : bool :=
  let n := nat_of_ascii c in (Nat.leb 48 n && Nat.leb n 57)%bool.

Fixpoint digitsOnly (s : string) : bool :=
  match s with
  | EmptyString => true
  | String c rest => isDigit c && digitsOnly rest
  end.

Fixpoint untilComma (s : string) : string :=
  match s with
  | EmptyString => ""
  | String c rest => if Ascii.eqb c "," then "" else String c (untilComma rest)
  end.

(** The string without its first [n] characters. *)
Fixpoint dropChars (n : nat) (s : string) : string :=
  match n, s with
  | O, _ => s
  | S n', String _ rest => dropChars n' rest
  | S _, EmptyString => ""
  end.

Definition pageTwo : FetchLeadsParams :=
  {| page := Some (Num 2); perPage := None; sortField := None; sortOrder := None;
     search := None; currentFilters := None |}.

(** The string holds no comma. *)
Fixpoint commaFree (s : string) : bool :=
  match s with
  | EmptyString => true
  | String c rest => negb (Ascii.eqb c ",") && commaFree rest
  end.

(** ** Reading the collections *)

(** [getLeadById(id)]. *)
Definition getLeadById (id : number) (st : Store) : option Lead :=
  findLead id (leads st).

(** [getTodosByLeadId(leadId)]. *)
Definition getTodosByLeadId (leadId : number) (st : Store) : list Todo :=
  List.filter (fun todo => strictEq (lookupProp "leadId" todo) (VNum leadId))
    (todos st).

(** ** Adding a lead *)

Module AddLead.

(** The [apiLead] object [addLead] builds from the lead it is given, which
    becomes the body of the POST. [labels.join] and [budget.toString] are
    the two calls that can throw, in this order. *)
Definition apiLead (stageOptions priorityOptions sourceOptions : list Options.Option)
    (lead : object) : result object :=
  labels ← joinComma (lookupProp "labels" lead);
  budget ← callToString (lookupProp "budget" lead);
  Ok [("is_in_pipeline",
       VNum (Num (if truthy (lookupProp "isInPipeline" lead) then 1 else 0)));
      ("name", lookupProp "name" lead);
      ("phone", lookupProp "phone" lead);
      ("alter_contact", lookupProp "alternatePhone" lead);
      ("address", lookupProp "address" lead);
      ("labels", labels);
      ("stage", Options.getApiValue stageOptions (lookupProp "stage" lead));
      ("priority", Options.getApiValue priorityOptions (lookupProp "priority" lead));
      ("requirement", lookupProp "requirement" lead);
      ("budget", budget);
      ("about", lookupProp "about" lead);
      ("note", lookupProp "note" lead);
      ("listname", or_else (lookupProp "listName" lead) (VStr ""));
      ("source", Options.getApiValue sourceOptions (lookupProp "source" lead));
      ("custom_fields",
       match stringify (or_else (lookupProp "customFields" lead) (VObj 0 [])) with
       | Some json => VStr json
       | None => VUndefined
       end);
      ("type", lookupProp "type" lead);
      ("assignd_to", lookupProp "assignedTo" lead);
      ("admin_id", VNum (Num 1));
      ("email", lookupProp "email" lead);
      ("lead_scrore", lookupProp "leadScore" lead);
      ("last_note", lookupProp "lastNote" lead)].

End AddLead.

Section AddingLeads.

Variable localeCompare : string -> string -> Z.
Variable JSON_parse : string -> option value.
Variable stringIsOne : string -> bool.
Variables stageOptions priorityOptions sourceOptions : list Options.Option.

(** How [addLead] starts: building the body threw, or the POST is out. *)
Inductive AddStarted : Type :=
| NotSent (e : JS.error)
| Posted.

(** [addLead(lead)] up to its [await fetch]. *)
Definition addLeadRequest (lead : object) (s : AppState) : AddStarted * AppState :=
  match AddLead.apiLead stageOptions priorityOptions sourceOptions lead with
  | Throw e => (NotSent e, onStore (reportFailure e) s)
  | Ok apiLead =>
      (Posted,
       onStore (emit (Fetch "POST" MODIFY_API_URL [("resource", "contacts")]
                        (stringify (VObj 0 apiLead)))) s)
  end.





End AddingLeads.

(** ** Tasks *)

Module AddTodo.

(** The [apiTodo] object [addTodo] builds, the body of its POST. *)
Definition apiTodo (todo : object) : result object :=
  contact_id ← callToString (lookupProp "leadId" todo);
  assigned_to ← joinComma (lookupProp "participants" todo);
  Ok [("contact_id", contact_id);
      ("type",
       VStr (if strictEq (lookupProp "type" todo) (VStr "Activity")
             then "activity" else "task"));
      ("note", lookupProp "description" todo);
      ("response", lookupProp "responseNote" todo);
      ("completed",
       VNum (Num (if strictEq (lookupProp "status" todo) (VStr "Completed")
                  then 1 else 0)));
      ("time", lookupProp "dateTime" todo);
      ("assigned_to", assigned_to)].

End AddTodo.

Section Todos.

Variable stringIsOne : string -> bool.

(** The callback of [data.data.map] in [fetchTodos]; the array of
    participants is allocated at [ref]. *)
Definition transformTask (ref : nat) (task : value) : result Todo :=
  rawId ← get task "id";
  contact_id ← get task "contact_id";
  type ← get task "type";
  note ← get task "note";
  response ← get task "response";
  completed ← get task "completed";
  time ← get task "time";
  assigned_to ← get task "assigned_to";
  participants ←
    (if truthy assigned_to then
       match assigned_to with
       | VStr s => Ok (VArr ref (VStr <$> split "," s))
       | _ => Throw (TypeError "task.assigned_to.split is not a function")
       end
     else Ok (VArr ref []));
  created_at ← get task "created_at";
  updated_at ← get task "updated_at";
  Ok [("id", VNum (parseInt rawId));
      ("leadId", VNum (parseInt contact_id));
      ("type", VStr (if strictEq type (VStr "activity") then "Activity" else "Todo"));
      ("description", or_else note (VStr ""));
      ("responseNote", or_else response (VStr ""));
      ("status",
       VStr (if looseEqOne stringIsOne completed then "Completed" else "Pending"));
      ("dateTime", time);
      ("participants", participants);
      ("createdAt", created_at);
      ("updatedAt", updated_at)].

Fixpoint transformTasks (ref : nat) (items : list value) : result (list Todo) :=
  match items with
  | [] => Ok []
  | item :: rest =>
      todo ← transformTask ref item;
      others ← transformTasks (S ref) rest;
      Ok (todo :: others)
  end.

(** [data.data.map(...)]. *)
Definition mapTasks (ref : nat) (data : value) : result (list Todo) :=
  match data with
  | VArr _ items => transformTasks ref items
  | VUndefined | VNull => Throw (TypeError "Cannot read properties of undefined")
  | _ => Throw (TypeError "data.data.map is not a function")
  end.

(** The request function of [fetchTodos] up to its [await fetch]. *)
Definition todosRequestFn (page perPage : number) (sortOrder : SortOrder)
    (st : Store) : Store :=
  emit (Fetch "GET" FETCH_API_URL
          [("resource", "activities");
           ("page", numberToString page);
           ("per_page", numberToString perPage);
           ("sort_dir", sortOrderUpper sortOrder)] None)
    (setIsLoading true st).

(** Its [try] block after [await fetch]: the tasks to store, if any. *)
Definition todosReply (ref : nat) (resp : Response) : result (option (list Todo)) :=
  match resp with
  | Rejected e => Throw e
  | Replied ok json =>
      if negb ok then Throw (Error "Failed to fetch tasks")
      else
        data ← json;
        success ← get data "success";
        if truthy success then
          items ← get data "data";
          transformedTodos ← mapTasks ref items;
          Ok (Some transformedTodos)
        else Ok None
  end.

(** The rest of the request function, run when the response arrives. *)
Definition todosResponse (resp : Response) (st : Store) : Store :=
  setIsLoading false
    match todosReply (nextRef st) resp with
    | Ok (Some transformedTodos) =>
        setTodos transformedTodos (reserve (length transformedTodos) st)
    | Ok None => st
    | Throw _ =>
        emit (ToastError "Failed to fetch tasks")
          (emit (ConsoleError "Error fetching tasks:") st)
    end.

End Todos.

(** [deleteTodo(id)] up to its [await fetch]. *)
Definition deleteTodoRequest (id : number) (s : AppState) : AppState :=
  onStore (emit (Fetch "DELETE" MODIFY_API_URL
                   [("resource", "activities"); ("id", numberToString id)] None)) s.

(** The rest of [deleteTodo], run on the state [s] the reply arrives in;
    [todos] is read from [rendered], the state of the render the closure
    was created in. *)
Definition deleteTodoReply (id : number) (rendered : Store) (resp : Response)
    (s : AppState) : AppState :=
  let attempt : result AppState :=
    match resp with
    | Rejected e => Throw e
    | Replied _ json =>
        data ← json;
        success ← get data "success";
        if truthy success then
          Ok (onStore (fun st =>
                emit (ToastSuccess "Task deleted successfully")
                  (setTodos (List.filter
                               (fun todo => negb (strictEq (lookupProp "id" todo) (VNum id)))
                               (todos rendered)) st)) s)
        else
          message ← get data "message";
          Ok (onStore (emit (ToastError
                 (toString (or_else message (VStr "Failed to delete task"))))) s)
    end in
  match attempt with
  | Ok s' => s'
  | Throw _ =>
      onStore (fun st => emit (ToastError "Failed to delete task")
                           (emit (ConsoleError "Error deleting task:") st)) s
  end.

(** [deleteTodo] with nothing happening between the request and its
    reply. *)
Definition deleteTodo (id : number) (resp : Response) (s : AppState) : AppState :=
  deleteTodoReply id (store s) resp (deleteTodoRequest id s).

(** ** A single lead *)

Section SingleLead.

Variable JSON_parse : string -> option value.
Variable stringIsOne : string -> bool.
(** Whether [ToNumber] of a string is greater than 0. *)
Variable stringIsPositive : string -> bool.
Variables stageOptions priorityOptions : list Options.Option.

(** [v.length] for a value that is neither [undefined] nor [null]. *)
Definition lengthOf (v : value) : value :=
  match v with
  | VArr _ a => VNum (Num (Z.of_nat (length a)))
  | VStr s => VNum (Num (Z.of_nat (String.length s)))
  | VObj _ ps => lookupProp "length" ps
  | _ => VUndefined
  end.

(** [v[0]] for a value that is neither [undefined] nor [null]. *)
Definition elementZero (v : value) : value :=
  match v with
  | VArr _ (x :: _) => x
  | VStr (String c _) => VStr (String c "")
  | VObj _ ps => lookupProp "0" ps
  | _ => VUndefined
  end.

(** [v > 0]. *)
Definition greaterThanZero (v : value) : bool :=
  match v with
  | VNum (Num z) => 0 <? z
  | VBool b => b
  | VStr s => stringIsPositive s
  | VArr _ _ => stringIsPositive (toString v)
  | _ => false
  end.

(** How [fetchSingleLead] starts: with the lead it holds, or with a
    request. *)
Inductive LeadLookup : Type :=
| Found (existingLead : Lead)
| Requested.

(** [fetchSingleLead(id)] up to its [await fetch]. *)
Definition fetchSingleLeadRequest (id : number) (s : AppState)
    : LeadLookup * AppState :=
  match findLead id (leads (store s)) with
  | Some existingLead => (Found existingLead, s)
  | None =>
      (Requested,
       onStore (emit (Fetch "GET" FETCH_API_URL
                        [("resource", "contacts"); ("id", numberToString id)]
                        None)) s)
  end.

(** Its [try] block after [await fetch]. *)
Definition singleLeadReply (ref : nat) (resp : Response) : result (option Lead) :=
  match resp with
  | Rejected e => Throw e
  | Replied ok json =>
      if negb ok then Throw (Error "Failed to fetch lead")
      else
        data ← json;
        success ← get data "success";
        if truthy success then
          items ← get data "data";
          if truthy items && greaterThanZero (lengthOf items) then
            lead ← transformApiLeadToLead JSON_parse stringIsOne stageOptions
                     priorityOptions ref (elementZero items);
            Ok (Some lead)
          else Ok None
        else Ok None
  end.

(** The rest of [fetchSingleLead]: what it resolves to ([None] is
    [null]) and the state it leaves. *)
Definition fetchSingleLeadReply (resp : Response) (s : AppState)
    : option Lead * AppState :=
  match singleLeadReply (nextRef (store s)) resp with
  | Ok (Some lead) => (Some lead, onStore (reserve 2) s)
  | Ok None => (None, s)
  | Throw _ => (None, onStore (emit (ConsoleError "Error fetching single lead:")) s)
  end.

(** [fetchSingleLead] with nothing happening between the request and its
    reply. *)
Definition fetchSingleLead (id : number) (resp : Response) (s : AppState)
    : option Lead * AppState :=
  match fetchSingleLeadRequest id s with
  | (Found existingLead, s') => (Some existingLead, s')
  | (Requested, s') => fetchSingleLeadReply resp s'
  end.

End SingleLead.

(** [Array.prototype.findIndex]; [None] is the [-1] it returns when no
    element passes. *)
Fixpoint findIndex {A : Type} (p : A -> bool) (l : list A) : option nat :=
  match l with
  | [] => None
  | x :: rest => if p x then Some O else S <$> findIndex p rest
  end.

(** [fetchSingleLead] of the variant in [src/unnamed/part_000] puts the
    lead it fetched into the collection. *)
Module Part000FetchSingleLead.

(** The updater it hands to [setLeads]: the fetched lead replaces the
    first lead with its id, or goes to the end. *)
Definition updater (transformedLead : Lead) (prevLeads : list Lead) : list Lead :=
  match findIndex (fun l => strictEq (lookupProp "id" l)
                                     (lookupProp "id" transformedLead)) prevLeads with
  | Some existingLeadIndex => <[existingLeadIndex := transformedLead]> prevLeads
  | None => (prevLeads ++ [transformedLead])%list
  end.

End Part000FetchSingleLead.

(** ** The phone input ([handlePhoneChange] of the lead form and of the
    lead's page) *)

(** [input.replace(/\D/g, '')]. *)
Fixpoint removeNonDigits (s : string) : string :=
  match s with
  | EmptyString => ""
  | String c rest =>
      if isDigit c then String c (removeNonDigits rest) else removeNonDigits rest
  end.

(** [s.slice(0, n)]. *)
Fixpoint sliceTo (n : nat) (s : string) : string :=
  match n, s with
  | S n', String c rest => String c (sliceTo n' rest)
  | _, _ => ""
  end.

(** The value [handlePhoneChange] passes on for the text of the input. *)
Definition handlePhoneChange (input : string) : string :=
  let hasPlus := match input with String "+" _ => true | _ => false end in
  let input := sliceTo 15 (removeNonDigits input) in
  if hasPlus then String "+" input else input.

(** * Properties *)

(** ** Stable insertion under a consistent comparison function *)

Section SortFacts.
Context {A : Type} (compare : A -> A -> Z).

Let le (x y : A) : Prop := compare x y <= 0.

Hypothesis compare_total : forall x y, compare x y <= 0 \/ compare y x <= 0.
Hypothesis compare_trans :
  forall x y z, compare x y <= 0 -> compare y z <= 0 -> compare x z <= 0.

Lemma sortInsert_perm (x : A) (l : list A) : sortInsert compare x l ≡ₚ x :: l.
Proof.
  induction l as [|y rest IH]; simpl; [done|].
  destruct (0 <? compare x y); [|done].
  rewrite IH. apply perm_swap.
Qed.

Lemma sort_perm (l : list A) : sort compare l ≡ₚ l.
Proof.
  induction l as [|x rest IH]; simpl; [done|].
  by rewrite sortInsert_perm, IH.
Qed.

Lemma sortInsert_sorted (x : A) (l : list A) :
  StronglySorted le l -> StronglySorted le (sortInsert compare x l).
Proof.
  induction l as [|y rest IH]; intros Hl; simpl.
  - repeat constructor.
  - apply StronglySorted_inv in Hl as [Hrest Hy].
    destruct (0 <? compare x y) eqn:Hgt.
    + apply Z.ltb_lt in Hgt.
      constructor; [by apply IH|].
      rewrite sortInsert_perm. constructor; [|done].
      unfold le. destruct (compare_total x y); lia.
    + apply Z.ltb_ge in Hgt.
      constructor; [by constructor|].
      constructor; [done|].
      eapply Forall_impl; [exact Hy|].
      intros z Hz. by apply (compare_trans x y z).
Qed.

Lemma sort_sorted (l : list A) : StronglySorted le (sort compare l).
Proof.
  induction l as [|x rest IH]; simpl; [constructor|].
  by apply sortInsert_sorted.
Qed.

(** Two sorted arrangements of the same elements coincide as soon as
    elements that compare equal are equal. *)
Lemma sorted_perm_eq (l1 l2 : list A) :
  StronglySorted le l1 -> StronglySorted le l2 -> l1 ≡ₚ l2 ->
  (forall x y, x ∈ l1 -> y ∈ l1 -> compare x y <= 0 -> compare y x <= 0 -> x = y) ->
  l1 = l2.
Proof.
  revert l2. induction l1 as [|x l1 IH]; intros l2 H1 H2 Hp Hanti.
  - symmetry. by apply Permutation_nil.
  - destruct l2 as [|y l2].
    { symmetry in Hp. by apply Permutation_nil_cons in Hp. }
    apply StronglySorted_inv in H1 as [H1 Hx].
    apply StronglySorted_inv in H2 as [H2 Hy].
    assert (x = y) as ->.
    { assert (x ∈ y :: l2) as Hin1 by (rewrite <- Hp; left).
      assert (y ∈ x :: l1) as Hin2 by (rewrite Hp; left).
      apply elem_of_cons in Hin1 as [->|Hin1]; [done|].
      apply elem_of_cons in Hin2 as [->|Hin2]; [done|].
      apply Hanti; [left | by right | |].
      - rewrite Forall_forall in Hx. by apply Hx.
      - rewrite Forall_forall in Hy. by apply Hy. }
    f_equal. apply IH; [done | done | by eapply Permutation_cons_inv |].
    intros a b Ha Hb. apply Hanti; by right.
Qed.

Lemma sort_perm_eq (l1 l2 : list A) :
  l1 ≡ₚ l2 ->
  (forall x y, x ∈ l1 -> y ∈ l1 -> compare x y <= 0 -> compare y x <= 0 -> x = y) ->
  sort compare l1 = sort compare l2.
Proof.
  intros Hp Hanti. apply sorted_perm_eq.
  - apply sort_sorted.
  - apply sort_sorted.
  - by rewrite !sort_perm.
  - intros x y Hx Hy. apply Hanti; by rewrite <- (sort_perm l1).
Qed.

End SortFacts.

(** ** The example collation is consistent *)

Lemma string_compare_le_trans (a b c : string) :
  String.compare a b <> Gt -> String.compare b c <> Gt -> String.compare a c <> Gt.
Proof.
  revert b c. induction a as [|x a IH]; intros [|y b] [|z c]; simpl; try done.
  unfold Ascii.compare.
  destruct (N.compare_spec (N_of_ascii x) (N_of_ascii y)) as [Hxy|Hxy|Hxy];
    destruct (N.compare_spec (N_of_ascii y) (N_of_ascii z)) as [Hyz|Hyz|Hyz];
    destruct (N.compare_spec (N_of_ascii x) (N_of_ascii z)) as [Hxz|Hxz|Hxz];
    try done; try lia.
  apply IH.
Qed.

Lemma codeUnitCompare_total (a b : string) :
  codeUnitCompare a b <= 0 \/ codeUnitCompare b a <= 0.
Proof.
  unfold codeUnitCompare. rewrite (String.compare_antisym a b).
  destruct (String.compare b a); simpl; lia.
Qed.

Lemma codeUnitCompare_trans (a b c : string) :
  codeUnitCompare a b <= 0 -> codeUnitCompare b c <= 0 -> codeUnitCompare a c <= 0.
Proof.
  unfold codeUnitCompare. intros Hab Hbc.
  pose proof (string_compare_le_trans a b c) as Ht.
  destruct (String.compare a b), (String.compare b c), (String.compare a c);
    try lia; exfalso; apply Ht; done.
Qed.

(** ** The cache key and the order of the filters *)

Lemma readArray_updateArray (f : list Filter.FilterOption -> list Filter.FilterOption)
    (ref : nat) (st : Store) :
  f [] = [] -> readArray ref (updateArray f ref st) = f (readArray ref st).
Proof.
  intros Hnil. unfold readArray, updateArray; simpl.
  rewrite lookup_alter_eq. by destruct (arrays st !! ref).
Qed.

Lemma readArray_sortInPlace localeCompare (params : FetchLeadsParams) (st : Store) :
  readArray (filtersRefOf params st) (sortInPlace localeCompare params st)
  = sort (byField localeCompare) (readArray (filtersRefOf params st) st).
Proof. unfold sortInPlace. by apply readArray_updateArray. Qed.

(** When [fetchLeads] answers from the cache. *)
Lemma fetchLeads_cached_iff localeCompare stageOptions priorityOptions sourceOptions
    (now : Z) (params : FetchLeadsParams) (s : AppState) (d : list Lead) (t : value) :
  let cache := globalLeadsCache (store s) in
  let key :=
    cacheKeyOf params
      (sort (byField localeCompare)
         (readArray (filtersRefOf params (store s)) (store s))) in
  (fetchLeads localeCompare stageOptions priorityOptions sourceOptions now params s).1
    = Cached d t
  <-> cacheHit now key cache = true
      /\ d = LeadsCache.data cache
      /\ t = or_else (LeadsCache.total cache) (VNum (Num 0)).
Proof.
  intros cache key. unfold fetchLeads.
  rewrite readArray_sortInPlace.
  change (globalLeadsCache (sortInPlace _ _ (store s))) with cache.
  fold key. destruct (cacheHit now key cache); simpl.
  - split; [intros [= <- <-]; done | intros (_ & -> & ->); done].
  - destruct (makeRequest _ _ _ _) as [[promise r] st2]; simpl.
    split; [done | intros [? _]; done].
Qed.

(** What the sort does achieve. Two parameter sets that agree on page,
    perPage, sortField, sortOrder and search, and whose filter arrays hold
    the same filters in any order, get the same cache key from
    [fetchLeads], and one is answered from the cache exactly when the other
    is, provided the collation is consistent and any two filters whose
    field names collate equal are the same filter. *)
Theorem cache_key_independent_of_filter_order
    (localeCompare : string -> string -> Z)
    (stageOptions priorityOptions sourceOptions : list Options.Option)
    (now : Z) (p1 p2 : FetchLeadsParams) (s : AppState) :
  let filters1 := readArray (filtersRefOf p1 (store s)) (store s) in
  let filters2 := readArray (filtersRefOf p2 (store s)) (store s) in
  (forall a b, localeCompare a b <= 0 \/ localeCompare b a <= 0) ->
  (forall a b c, localeCompare a b <= 0 -> localeCompare b c <= 0 ->
                 localeCompare a c <= 0) ->
  page p1 = page p2 -> perPage p1 = perPage p2 -> sortField p1 = sortField p2 ->
  sortOrder p1 = sortOrder p2 -> search p1 = search p2 ->
  filters1 ≡ₚ filters2 ->
  (forall f g, f ∈ filters1 -> g ∈ filters1 ->
     localeCompare (Filter.field f) (Filter.field g) <= 0 ->
     localeCompare (Filter.field g) (Filter.field f) <= 0 -> f = g) ->
  cacheKeyOf p1 (sort (byField localeCompare) filters1)
    = cacheKeyOf p2 (sort (byField localeCompare) filters2)
  /\ (forall d t,
        (fetchLeads localeCompare stageOptions priorityOptions sourceOptions
           now p1 s).1 = Cached d t
        <-> (fetchLeads localeCompare stageOptions priorityOptions sourceOptions
               now p2 s).1 = Cached d t).
Proof.
  intros filters1 filters2 Htotal Htrans Hpage HperPage HsortField HsortOrder
    Hsearch Hperm Hties.
  assert (cacheKeyOf p1 (sort (byField localeCompare) filters1)
          = cacheKeyOf p2 (sort (byField localeCompare) filters2)) as Hkey.
  { unfold cacheKeyOf.
    rewrite Hpage, HperPage, HsortField, HsortOrder, Hsearch.
    f_equal. apply sort_perm_eq; try done.
    - intros x y. apply Htotal.
    - intros x y z. apply Htrans. }
  split; [exact Hkey|].
  intros d t. rewrite !fetchLeads_cached_iff.
  fold filters1 filters2. by rewrite Hkey.
Qed.

Example cache_key_independent_of_filter_order_example :
  let s :=
    provider [stageFilter; priorityFilter] [priorityFilter; stageFilter]
      emptyCache [] in
  cacheKeyOf (withFilters 0)
      (sort (byField codeUnitCompare) [stageFilter; priorityFilter])
    = cacheKeyOf (withFilters 1)
        (sort (byField codeUnitCompare) [priorityFilter; stageFilter])
  /\ (forall d t,
        (fetchLeads codeUnitCompare [] [] [] 5 (withFilters 0) s).1 = Cached d t
        <-> (fetchLeads codeUnitCompare [] [] [] 5 (withFilters 1) s).1 = Cached d t).
Proof.
  intros s.
  apply (cache_key_independent_of_filter_order codeUnitCompare [] [] [] 5
           (withFilters 0) (withFilters 1) s);
    try reflexivity.
  - apply codeUnitCompare_total.
  - apply codeUnitCompare_trans.
  - apply perm_swap.
  - intros f g Hf Hg.
    change (f ∈ [stageFilter; priorityFilter]) in Hf.
    change (g ∈ [stageFilter; priorityFilter]) in Hg.
    rewrite !elem_of_cons, elem_of_nil in Hf, Hg.
    destruct Hf as [->|[->|[]]]; destruct Hg as [->|[->|[]]];
      vm_compute; intros H1 H2; try reflexivity; exfalso;
      first [by apply H1 | by apply H2].
Qed.

(** C1 fails on the code. The comparison function looks at the field name
    only and the sort is stable, so two filters on the same field keep the
    order they came in: the two orders of a budget range give two cache
    keys, and the page stored under one is not served for the other. *)
Theorem cache_key_depends_on_order_within_a_field :
  let s :=
    provider [minBudget; maxBudget] [maxBudget; minBudget]
      (storedPage (withFilters 0) [minBudget; maxBudget] [leadSeven] 0) [] in
  [minBudget; maxBudget] ≡ₚ [maxBudget; minBudget]
  /\ cacheKeyOf (withFilters 0) (sort (byField codeUnitCompare) [minBudget; maxBudget])
     <> cacheKeyOf (withFilters 1) (sort (byField codeUnitCompare) [maxBudget; minBudget])
  /\ (fetchLeads codeUnitCompare [] [] [] 5 (withFilters 0) s).1
     = Cached [leadSeven] (VNum (Num 42))
  /\ (fetchLeads codeUnitCompare [] [] [] 5 (withFilters 1) s).1 = Awaiting 100.
Proof.
  intros s. split; [apply perm_swap|].
  split; [vm_compute; discriminate|].
  split; vm_compute; reflexivity.
Qed.

(** ** Freshness of the cache slot *)

Lemma requestsIssued_emit_fetch (st : Store) method url query body :
  requestsIssued (emit (Fetch method url query body) st)
  = (requestsIssued st ++ [Fetch method url query body])%list.
Proof. unfold requestsIssued; simpl. by rewrite List.filter_app. Qed.

(** A call that is not answered from the cache goes through the
    deduplicator. *)
Lemma fetchLeads_miss localeCompare stageOptions priorityOptions sourceOptions
    (now : Z) (params : FetchLeadsParams) (s : AppState) :
  let key :=
    cacheKeyOf params
      (sort (byField localeCompare)
         (readArray (filtersRefOf params (store s)) (store s))) in
  let r := fetchLeads localeCompare stageOptions priorityOptions sourceOptions
             now params s in
  cacheHit now key (globalLeadsCache (store s)) = false ->
  (forall d t, r.1 <> Cached d t)
  /\ deduplicated (leadsRequestKey params (sortInPlace localeCompare params (store s)))
       s r.2 r.1.
Proof.
  intros key r Hmiss. subst r. unfold fetchLeads.
  rewrite readArray_sortInPlace.
  change (globalLeadsCache (sortInPlace _ _ (store s)))
    with (globalLeadsCache (store s)).
  fold key. rewrite Hmiss. unfold makeRequest, deduplicated.
  destruct (activeRequests (requests s) !! _) as [promise|]; simpl.
  - split; [done|]. split; reflexivity.
  - split; [done|]. split; [reflexivity|].
    eexists. unfold leadsRequestFn.
    rewrite requestsIssued_emit_fetch. reflexivity.
Qed.

(** C2, as amended. Once two minutes or more have passed since the entry
    was stored, a call is not answered from the cache, whatever its key.
    What it does then is decided by the map of requests: if a promise is
    registered under its request key it is handed that promise and issues
    no request; if none is registered it issues a remote request, also
    when a request under the key is still in flight and the map has been
    cleared since. *)
Theorem stale_entry_misses
    (localeCompare : string -> string -> Z)
    (stageOptions priorityOptions sourceOptions : list Options.Option)
    (now : Z) (params : FetchLeadsParams) (s : AppState) :
  let r := fetchLeads localeCompare stageOptions priorityOptions sourceOptions
             now params s in
  2 * 60 * 1000 <= now - LeadsCache.timestamp (globalLeadsCache (store s)) ->
  (forall d t, r.1 <> Cached d t)
  /\ deduplicated (leadsRequestKey params (sortInPlace localeCompare params (store s)))
       s r.2 r.1.
Proof.
  intros r Hage. apply fetchLeads_miss.
  unfold cacheHit. apply andb_false_intro2. apply Z.ltb_ge. exact Hage.
Qed.

Lemma stale_entry_misses_witness :
  let s := provider [] [] (storedPage noParams [] [leadSeven] 0) [] in
  let r := fetchLeads codeUnitCompare [] [] [] 120000 noParams s in
  (forall d t, r.1 <> Cached d t)
  /\ deduplicated (leadsRequestKey noParams (sortInPlace codeUnitCompare noParams (store s)))
       s r.2 r.1.
Proof.
  intros s.
  apply (stale_entry_misses codeUnitCompare [] [] [] 120000 noParams s).
  vm_compute. discriminate.
Defined.

(** C2 as stated fails: with a promise registered under the same request
    key, the call on a stale entry with an unchanged key is handed that
    promise and issues no request of its own. *)
Lemma stale_entry_can_join_without_request :
  let s := provider [] [] (storedPage noParams [] [leadSeven] 0) [("leads-{}", 7%nat)] in
  let r := fetchLeads codeUnitCompare [] [] [] 120000 noParams s in
  LeadsCache.params (globalLeadsCache (store s))
    = Some (cacheKeyOf noParams (sort (byField codeUnitCompare) (currentLeadFilters (store s))))
  /\ 2 * 60 * 1000 <= 120000 - LeadsCache.timestamp (globalLeadsCache (store s))
  /\ r.1 = Awaiting 7
  /\ requestsIssued (store r.2) = requestsIssued (store s).
Proof.
  intros s. split; [reflexivity|]. split; [vm_compute; discriminate|].
  split; vm_compute; reflexivity.
Qed.

(** The other side of C2 as amended: a request under the key is in flight
    (promise 7) but the map has been cleared, so nothing is registered
    under the key; the call on the stale entry issues a request of its
    own. *)
Example stale_entry_after_clear_issues_request :
  let s0 := provider [] [] (storedPage noParams [] [leadSeven] 0) [("leads-{}", 7%nat)] in
  let s := {| store := store s0; requests := clearRequests (requests s0) |} in
  let r := fetchLeads codeUnitCompare [] [] [] 120000 noParams s in
  (exists k, inFlight (requests s) !! 7%nat = Some ("leads-{}", k))
  /\ activeRequests (requests s) !! "leads-{}" = None
  /\ r.1 = Awaiting 100
  /\ length (requestsIssued (store r.2)) = S (length (requestsIssued (store s))).
Proof.
  vm_compute. split; [by eexists|]. repeat split; reflexivity.
Qed.

(** ** An empty page is never served from the cache *)

(** A successful reply whose [data] array is empty is stored as an entry
    with an empty list, under the key the request captured. *)
Lemma empty_page_is_stored JSON_parse stringIsOne stageOptions priorityOptions
    (now : Z) (promise : nat) (key : string) (k : LeadsRequest)
    (apiResponse success : value) (ref : nat) (s : AppState) :
  inFlight (requests s) !! promise = Some (key, k) ->
  get apiResponse "success" = Ok success -> truthy success = true ->
  get apiResponse "data" = Ok (VArr ref []) ->
  let s' := settleLeads JSON_parse stringIsOne stageOptions priorityOptions
              now promise (Replied true (Ok apiResponse)) s in
  LeadsCache.data (globalLeadsCache (store s')) = []
  /\ LeadsCache.params (globalLeadsCache (store s')) = Some (cacheKey k)
  /\ LeadsCache.timestamp (globalLeadsCache (store s')) = now
  /\ activeRequests (requests s') !! key = None.
Proof.
  intros Hfl Hsuccess Htruthy Hdata s'. subst s'.
  unfold settleLeads, settle. rewrite Hfl. simpl.
  unfold leadsResponse, leadsReply. simpl.
  rewrite Hsuccess. simpl. rewrite Htruthy, Hdata. simpl.
  assert (exists meta, get apiResponse "meta" = Ok meta) as [meta ->].
  { destruct apiResponse; simpl in *; try done; eauto. }
  simpl. repeat split; try reflexivity. apply lookup_delete_eq.
Qed.

(** C10, as amended. While the slot holds an empty list, no call is
    answered from the cache, whatever its key and however fresh the entry.
    What the call does then is decided by the map of requests: if a
    promise is registered under its request key it is handed that promise
    and issues no request; if none is registered it issues a new remote
    request, also when a request under the key is still in flight and the
    map has been cleared since. *)
Theorem empty_page_misses
    (localeCompare : string -> string -> Z)
    (stageOptions priorityOptions sourceOptions : list Options.Option)
    (now : Z) (params : FetchLeadsParams) (s : AppState) :
  let r := fetchLeads localeCompare stageOptions priorityOptions sourceOptions
             now params s in
  LeadsCache.data (globalLeadsCache (store s)) = [] ->
  (forall d t, r.1 <> Cached d t)
  /\ deduplicated (leadsRequestKey params (sortInPlace localeCompare params (store s)))
       s r.2 r.1.
Proof.
  intros r Hempty. apply fetchLeads_miss.
  unfold cacheHit. by rewrite Hempty.
Qed.

Lemma empty_page_misses_witness :
  let s := provider [] [] (storedPage noParams [] [] 0) [] in
  let r := fetchLeads codeUnitCompare [] [] [] 5 noParams s in
  (forall d t, r.1 <> Cached d t)
  /\ deduplicated (leadsRequestKey noParams (sortInPlace codeUnitCompare noParams (store s)))
       s r.2 r.1.
Proof.
  intros s.
  apply (empty_page_misses codeUnitCompare [] [] [] 5 noParams s).
  reflexivity.
Defined.

(** C10 as stated fails: with a promise registered under the same request
    key, the repeated call on a fresh, matching, empty entry is handed
    that promise and issues no request of its own. *)
Lemma empty_page_can_join_without_request :
  let s := provider [] [] (storedPage noParams [] [] 0) [("leads-{}", 7%nat)] in
  let r := fetchLeads codeUnitCompare [] [] [] 5 noParams s in
  LeadsCache.data (globalLeadsCache (store s)) = []
  /\ LeadsCache.params (globalLeadsCache (store s))
     = Some (cacheKeyOf noParams (sort (byField codeUnitCompare) (currentLeadFilters (store s))))
  /\ 5 - LeadsCache.timestamp (globalLeadsCache (store s)) < 2 * 60 * 1000
  /\ r.1 = Awaiting 7
  /\ requestsIssued (store r.2) = requestsIssued (store s).
Proof.
  intros s. repeat split; vm_compute; reflexivity.
Qed.

(** The other side of C10 as amended: a request under the key is in
    flight (promise 7) but the map has been cleared; the repeated call on
    the empty entry issues a request of its own. *)
Example empty_page_after_clear_issues_request :
  let s0 := provider [] [] (storedPage noParams [] [] 0) [("leads-{}", 7%nat)] in
  let s := {| store := store s0; requests := clearRequests (requests s0) |} in
  let r := fetchLeads codeUnitCompare [] [] [] 5 noParams s in
  (exists k, inFlight (requests s) !! 7%nat = Some ("leads-{}", k))
  /\ activeRequests (requests s) !! "leads-{}" = None
  /\ r.1 = Awaiting 100
  /\ length (requestsIssued (store r.2)) = S (length (requestsIssued (store s))).
Proof.
  vm_compute. split; [by eexists|]. repeat split; reflexivity.
Qed.

(** ** Clearing the filters *)

Lemma currentLeadFilters_setLeadFiltersState (v : list Filter.FilterOption) (st : Store) :
  currentLeadFilters (setLeadFiltersState v st) = v.
Proof.
  unfold currentLeadFilters, readArray, setLeadFiltersState; simpl.
  by rewrite lookup_insert_eq.
Qed.

(** C8, as amended. [clearLeadFilters] makes the lead filter list empty.
    In [contexts/AppContext.tsx] it leaves the cache slot as it is; in the
    variant of [part_000] it also resets the slot, so that the next call of
    [fetchLeads], whatever its parameters, is not answered from the cache
    and goes through the deduplicator. *)
Theorem clearLeadFilters_empties_filters (s : AppState) :
  (currentLeadFilters (store (clearLeadFilters s)) = []
   /\ globalLeadsCache (store (clearLeadFilters s)) = globalLeadsCache (store s))
  /\ (currentLeadFilters (store (Part000.clearLeadFilters s)) = []
      /\ globalLeadsCache (store (Part000.clearLeadFilters s)) = emptyCache
      /\ forall localeCompare stageOptions priorityOptions sourceOptions now params,
           let s' := Part000.clearLeadFilters s in
           let r := fetchLeads localeCompare stageOptions priorityOptions sourceOptions
                      now params s' in
           (forall d t, r.1 <> Cached d t)
           /\ deduplicated
                (leadsRequestKey params (sortInPlace localeCompare params (store s')))
                s' r.2 r.1).
Proof.
  split; [split|split; [|split]].
  - apply currentLeadFilters_setLeadFiltersState.
  - reflexivity.
  - unfold Part000.clearLeadFilters, onStore; simpl.
    unfold currentLeadFilters, readArray; simpl. by rewrite lookup_insert_eq.
  - reflexivity.
  - intros. apply fetchLeads_miss. reflexivity.
Qed.

(** C8 as stated fails for [contexts/AppContext.tsx]: the page stored for
    the unfiltered query survives [clearLeadFilters] and answers the next
    call, which issues no request. *)
Lemma clearLeadFilters_keeps_cache :
  let s := provider [stageFilter] [] (storedPage noParams [] [leadSeven] 0) [] in
  let r := fetchLeads codeUnitCompare [] [] [] 5 noParams (clearLeadFilters s) in
  currentLeadFilters (store (clearLeadFilters s)) = []
  /\ r.1 = Cached [leadSeven] (VNum (Num 42))
  /\ requestsIssued (store r.2) = requestsIssued (store s).
Proof.
  intros s. repeat split; vm_compute; reflexivity.
Qed.

(** ** The request deduplicator *)

Section DeduplicatorFacts.
Context {W K : Type}.
Implicit Types (r : Requests K) (w : W) (requestFn : W -> K * W).

Lemma runs_snoc (key key' : string) (promise : nat) (l : list (string * nat)) :
  length (List.filter (fun e => String.eqb e.1 key) (l ++ [(key', promise)]))
  = (length (List.filter (fun e => String.eqb e.1 key) l)
     + if String.eqb key' key then 1 else 0)%nat.
Proof.
  rewrite List.filter_app, length_app. simpl.
  by destruct (String.eqb key' key).
Qed.

Lemma makeRequest_fresh (key : string) requestFn r w :
  activeRequests r !! key = None ->
  let '(promise, r', _) := makeRequest key requestFn r w in
  promise = nextPromise r
  /\ pendingUnder key promise r'
  /\ runs key r' = S (runs key r).
Proof.
  intros Hnone. unfold makeRequest. rewrite Hnone.
  destruct (requestFn w) as [k w']. split; [done|]. split.
  - split; simpl; [apply lookup_insert_eq|].
    split; [exists k; apply lookup_insert_eq | lia].
  - unfold runs; simpl. rewrite runs_snoc, String.eqb_refl. lia.
Qed.

Lemma makeRequest_joins (key : string) (promise : nat) requestFn r w :
  activeRequests r !! key = Some promise ->
  makeRequest key requestFn r w = (promise, r, w).
Proof. intros Hsome. unfold makeRequest. by rewrite Hsome. Qed.

(** A call under another key leaves the registration under [key] and the
    count of its runs alone. *)
Lemma makeRequest_other (key key' : string) (promise : nat) requestFn r w :
  key' <> key -> pendingUnder key promise r ->
  let '(_, r', _) := makeRequest key' requestFn r w in
  pendingUnder key promise r' /\ runs key r' = runs key r.
Proof.
  intros Hne (Hact & [k Hfl] & Hlt). unfold makeRequest.
  destruct (activeRequests r !! key') as [q|] eqn:Hq.
  - split; [|done]. split; [done|]. split; [by exists k | done].
  - destruct (requestFn w) as [k' w']. split.
    + split; simpl; [by rewrite lookup_insert_ne|].
      split; [exists k; rewrite lookup_insert_ne; [done | lia] | lia].
    + unfold runs; simpl. rewrite runs_snoc.
      apply String.eqb_neq in Hne. rewrite Hne. lia.
Qed.

Lemma callAll_while_pending (key : string) (promise : nat)
    (calls : list (string * (W -> K * W))) r w :
  pendingUnder key promise r ->
  let '(promises, r', _) := callAll calls r w in
  pendingUnder key promise r'
  /\ runs key r' = runs key r
  /\ Forall2 (fun call handed => call.1 = key -> handed = promise) calls promises.
Proof.
  revert r w. induction calls as [|[key' requestFn] rest IH]; intros r w Hp; simpl.
  - repeat split; [apply Hp.. | constructor].
  - destruct (decide (key' = key)) as [->|Hne].
    + rewrite (makeRequest_joins key promise) by apply Hp.
      specialize (IH r w Hp). destruct (callAll rest r w) as [[promises r'] w'].
      destruct IH as (Hp' & Hruns & Hall).
      repeat split; [apply Hp'.. | done | by constructor].
    + pose proof (makeRequest_other key key' promise requestFn r w Hne Hp) as Hstep.
      destruct (makeRequest key' requestFn r w) as [[q r1] w1].
      destruct Hstep as [Hp1 Hruns1].
      specialize (IH r1 w1 Hp1). destruct (callAll rest r1 w1) as [[promises r'] w'].
      destruct IH as (Hp' & Hruns & Hall).
      repeat split; [apply Hp'.. | congruence | by constructor].
Qed.

Lemma settle_removes (resume : K -> W -> W) (key : string) (promise : nat) r w :
  pendingUnder key promise r ->
  let '(r', _) := settle resume promise r w in
  activeRequests r' !! key = None
  /\ nextPromise r' = nextPromise r
  /\ runs key r' = runs key r.
Proof.
  intros (_ & [k Hfl] & _). unfold settle. rewrite Hfl.
  split; [apply lookup_delete_eq | done].
Qed.

End DeduplicatorFacts.

(** While [promise] is registered under [key], callers and the
    settlements of other operations leave it registered and in flight; the
    callers under [key] are handed it and run nothing, so that the map and
    the state end up as if they had not come. *)
Lemma serve_while_registered {W K : Type} (resume : K -> W -> W) (key : string)
    (promise : nat) (k0 : K) (events : list (RequestEvent W K))
    (r : Requests K) (w : W) :
  activeRequests r !! key = Some promise ->
  inFlight r !! promise = Some (key, k0) ->
  (promise < nextPromise r)%nat ->
  settlesOthers key r events ->
  let out := serve resume events r w in
  let others :=
    serve resume (List.filter (fun e => negb (callsUnder key e)) events) r w in
  activeRequests out.1.2 !! key = Some promise
  /\ inFlight out.1.2 !! promise = Some (key, k0)
  /\ (promise < nextPromise out.1.2)%nat
  /\ runs key out.1.2 = runs key r
  /\ Forall2 (handedUnder key promise) events out.1.1
  /\ out.1.2 = others.1.2
  /\ out.2 = others.2.
Proof.
  revert r w. induction events as [|e rest IH]; intros r w Hact Hfl Hlt Hquiet.
  { simpl. repeat split; try done; try constructor. }
  apply Forall_cons in Hquiet as [He Hrest].
  destruct e as [key' requestFn|settling].
  - destruct (decide (key' = key)) as [->|Hne].
    + cbn [serve List.filter callsUnder negb]. rewrite String.eqb_refl. cbn [negb].
      rewrite (makeRequest_joins key promise requestFn r w Hact).
      destruct (IH r w Hact Hfl Hlt Hrest) as (H1 & H2 & Hn & H3 & H4 & H5 & H6).
      destruct (serve resume rest r w) as [[handed r2] w2].
      simpl in *. repeat split; try done;
          try (constructor; [simpl; first [done | intros; congruence] | done]).
    + cbn [serve List.filter callsUnder]. apply String.eqb_neq in Hne as Hneb.
      rewrite Hneb. cbn [negb serve]. unfold makeRequest.
      destruct (activeRequests r !! key') as [registered|] eqn:Hkey'.
      * destruct (IH r w Hact Hfl Hlt Hrest) as (H1 & H2 & Hn & H3 & H4 & H5 & H6).
        destruct (serve resume rest r w) as [[handed r2] w2].
        destruct (serve resume _ r w) as [[handed' r2'] w2'].
        simpl in *. repeat split; try done;
          try (constructor; [simpl; first [done | intros; congruence] | done]).
      * destruct (requestFn w) as [k w1].
        set (r1 := {| activeRequests := <[key' := nextPromise r]> (activeRequests r);
                      inFlight := <[nextPromise r := (key', k)]> (inFlight r);
                      nextPromise := S (nextPromise r);
                      started := started r ++ [(key', nextPromise r)] |}).
        assert (settlesOthers key r1 rest) as Hrest1.
        { eapply Forall_impl; [exact Hrest|]. intros [?|q]; [done|].
          intros Hq k'. simpl.
          destruct (decide (q = nextPromise r)) as [->|Hq'].
          - rewrite lookup_insert_eq. congruence.
          - rewrite lookup_insert_ne by done. apply Hq. }
        destruct (IH r1 w1) as (H1 & H2 & Hn & H3 & H4 & H5 & H6); try done.
        { simpl. by rewrite lookup_insert_ne. }
        { simpl. rewrite lookup_insert_ne by lia. done. }
        { simpl. lia. }
        destruct (serve resume rest r1 w1) as [[handed r2] w2].
        destruct (serve resume _ r1 w1) as [[handed' r2'] w2'].
        simpl in *. repeat split; try done.
        -- rewrite H3. unfold runs; simpl. rewrite runs_snoc, Hneb. lia.
        -- constructor; [simpl; intros; congruence | done].
  - cbn [serve List.filter callsUnder negb]. unfold settle.
    destruct (inFlight r !! settling) as [[key' k']|] eqn:Hsettling.
    + assert (key' <> key) as Hne by (intros ->; by apply (He k')).
      assert (settling <> promise) as Hother by congruence.
      set (r1 := {| activeRequests := delete key' (activeRequests r);
                    inFlight := delete settling (inFlight r);
                    nextPromise := nextPromise r;
                    started := started r |}).
      assert (settlesOthers key r1 rest) as Hrest1.
      { eapply Forall_impl; [exact Hrest|]. intros [?|q]; [done|].
        intros Hq k''. simpl.
        destruct (decide (q = settling)) as [->|Hq'].
        - by rewrite lookup_delete_eq.
        - rewrite lookup_delete_ne by done. apply Hq. }
      destruct (IH r1 (resume k' w)) as (H1 & H2 & Hn & H3 & H4 & H5 & H6); try done.
      { simpl. by rewrite lookup_delete_ne. }
      { simpl. by rewrite lookup_delete_ne. }
      destruct (serve resume rest r1 (resume k' w)) as [[handed r2] w2].
      destruct (serve resume _ r1 (resume k' w)) as [[handed' r2'] w2'].
      simpl in *. repeat split; try done;
          try (constructor; [simpl; first [done | intros; congruence] | done]).
    + destruct (IH r w Hact Hfl Hlt Hrest) as (H1 & H2 & Hn & H3 & H4 & H5 & H6).
      destruct (serve resume rest r w) as [[handed r2] w2].
      destruct (serve resume _ r w) as [[handed' r2'] w2'].
      simpl in *. repeat split; try done;
          try (constructor; [simpl; first [done | intros; congruence] | done]).
Qed.

(** C3, as amended. Let a call of [makeRequest] under [key] start an
    operation: its request function runs, on the state as it is. Whatever
    comes while its promise is registered under [key] (callers under any
    key and settlements of other operations, but neither its own
    settlement nor a clearing of the map), the callers under [key] are all
    handed its promise and their request functions do not run: the map and
    the state end up as if those callers had not come, and the count of
    runs under [key] has grown by exactly one. When the promise settles,
    the continuation of the first operation runs, [key] is gone from the
    map, and the next call under [key] starts a second operation, running
    its request function, with a promise of its own. *)
Theorem makeRequest_runs_once {W K : Type} (resume : K -> W -> W) (key : string)
    (first later : W -> K * W) (events : list (RequestEvent W K))
    (r : Requests K) (w : W) :
  activeRequests r !! key = None ->
  let started := makeRequest key first r w in
  let promise := started.1.1 in
  settlesOthers key started.1.2 events ->
  let during := serve resume events started.1.2 started.2 in
  let others :=
    serve resume (List.filter (fun e => negb (callsUnder key e)) events)
      started.1.2 started.2 in
  let settled := settle resume promise during.1.2 during.2 in
  let again := makeRequest key later settled.1 settled.2 in
  started.2 = (first w).2
  /\ inFlight started.1.2 !! promise = Some (key, (first w).1)
  /\ Forall2 (handedUnder key promise) events during.1.1
  /\ during.1.2 = others.1.2
  /\ during.2 = others.2
  /\ runs key during.1.2 = S (runs key r)
  /\ activeRequests during.1.2 !! key = Some promise
  /\ settled.2 = resume (first w).1 during.2
  /\ activeRequests settled.1 !! key = None
  /\ again.1.1 <> promise
  /\ again.2 = (later settled.2).2
  /\ activeRequests again.1.2 !! key = Some again.1.1
  /\ runs key again.1.2 = S (S (runs key r)).
Proof.
  intros Hnone. cbv zeta.
  pose proof (makeRequest_fresh key first r w Hnone) as Hfirst.
  assert ((makeRequest key first r w).2 = (first w).2
          /\ inFlight (makeRequest key first r w).1.2
               !! (makeRequest key first r w).1.1 = Some (key, (first w).1))
    as [Hworld Hentry].
  { unfold makeRequest. rewrite Hnone. destruct (first w) as [k w']; simpl.
    split; [done|]. apply lookup_insert_eq. }
  destruct (makeRequest key first r w) as [[promise r1] w1]; simpl in *.
  destruct Hfirst as (Hpromise & (Hact1 & _ & Hlt1) & Hruns1).
  intros Hquiet.
  destruct (serve_while_registered resume key promise (first w).1 events r1 w1
              Hact1 Hentry Hlt1 Hquiet)
    as (Hact2 & Hkept & Hlt2 & Hruns2 & Hall & Hmap & Hstate).
  destruct (serve resume events r1 w1) as [[handed r2] w2]; simpl in *.
  assert (settle resume promise r2 w2
          = ({| activeRequests := delete key (activeRequests r2);
                inFlight := delete promise (inFlight r2);
                nextPromise := nextPromise r2;
                started := started r2 |},
             resume (first w).1 w2)) as Hsettled.
  { unfold settle. by rewrite Hkept. }
  rewrite Hsettled; simpl.
  set (r3 := {| activeRequests := delete key (activeRequests r2);
                inFlight := delete promise (inFlight r2);
                nextPromise := nextPromise r2;
                started := started r2 |}).
  assert (activeRequests r3 !! key = None) as Hgone by apply lookup_delete_eq.
  pose proof (makeRequest_fresh key later r3 (resume (first w).1 w2) Hgone) as Hagain.
  assert ((makeRequest key later r3 (resume (first w).1 w2)).2
          = (later (resume (first w).1 w2)).2) as Hlater.
  { unfold makeRequest. rewrite Hgone.
    by destruct (later (resume (first w).1 w2)) as [k w']. }
  destruct (makeRequest key later r3 (resume (first w).1 w2)) as [[promise' r4] w4];
    simpl in *.
  destruct Hagain as (Hpromise' & Hpending4 & Hruns4).
  repeat match goal with |- _ /\ _ => split end; try done; try congruence.
  - subst promise'. simpl. lia.
  - apply Hpending4.
  - rewrite Hruns4. change (runs key r3) with (runs key r2). lia.
Qed.

Lemma makeRequest_runs_once_witness :
  let events :=
    [Call "leads-{}" (note "second"); Call "todos-{}" (note "todos");
     Settle 1%nat; Call "todos-{}" (note "todos again");
     Call "leads-{}" (note "third")] in
  let resume := fun (_ : unit) (log : list string) => (log ++ ["settled"])%list in
  let started := makeRequest "leads-{}" (note "first") noRequests [] in
  let promise := started.1.1 in
  let during := serve resume events started.1.2 started.2 in
  let others :=
    serve resume (List.filter (fun e => negb (callsUnder "leads-{}" e)) events)
      started.1.2 started.2 in
  let settled := settle resume promise during.1.2 during.2 in
  let again := makeRequest "leads-{}" (note "later") settled.1 settled.2 in
  started.2 = (note "first" []).2
  /\ inFlight started.1.2 !! promise = Some ("leads-{}", (note "first" []).1)
  /\ Forall2 (handedUnder "leads-{}" promise) events during.1.1
  /\ during.1.2 = others.1.2
  /\ during.2 = others.2
  /\ runs "leads-{}" during.1.2 = S (runs "leads-{}" (@noRequests unit))
  /\ activeRequests during.1.2 !! "leads-{}" = Some promise
  /\ settled.2 = resume (note "first" []).1 during.2
  /\ activeRequests settled.1 !! "leads-{}" = None
  /\ again.1.1 <> promise
  /\ again.2 = (note "later" settled.2).2
  /\ activeRequests again.1.2 !! "leads-{}" = Some again.1.1
  /\ runs "leads-{}" again.1.2 = S (S (runs "leads-{}" (@noRequests unit))).
Proof.
  intros events resume.
  apply (makeRequest_runs_once resume "leads-{}"
           (note "first") (note "later") events noRequests []).
  - reflexivity.
  - repeat constructor. vm_compute. discriminate.
Defined.

(** What the run of the witness hands out and leaves in the log: the two
    callers under the key are handed promise 0 and leave no note; the two
    callers for the tasks run, the second after the first has settled. *)
Example served_run :
  let events :=
    [Call "leads-{}" (note "second"); Call "todos-{}" (note "todos");
     Settle 1%nat; Call "todos-{}" (note "todos again");
     Call "leads-{}" (note "third")] in
  let resume := fun (_ : unit) (log : list string) => (log ++ ["settled"])%list in
  let started := makeRequest "leads-{}" (note "first") noRequests [] in
  let during := serve resume events started.1.2 started.2 in
  during.1.1 = [Some 0; Some 1; None; Some 2; Some 0]%nat
  /\ during.2 = ["first"; "todos"; "settled"; "todos again"].
Proof. vm_compute. split; reflexivity. Qed.

(** C3 as stated fails: [invalidateLeadsCache] clears the map while
    operations are in flight. On the deduplicator: after a first call under
    a key the map is cleared; the first operation is still in flight, yet a
    second caller under the key is handed another promise and its request
    function runs as well. On the store: [fetchLeads()], then
    [invalidateLeadsCache()], then [fetchLeads()] again hands out two
    promises and issues two GETs, the first request still in flight. *)
Lemma cleared_map_runs_request_again :
  (let started := makeRequest "leads-{}" (note "first") (@noRequests unit) [] in
   let second :=
     makeRequest "leads-{}" (note "second") (clearRequests started.1.2) started.2 in
   started.1.1 = 0%nat
   /\ inFlight second.1.2 !! 0%nat = Some ("leads-{}", tt)
   /\ second.1.1 = 1%nat
   /\ second.2 = ["first"; "second"]
   /\ runs "leads-{}" second.1.2 = 2%nat)
  /\ (let s0 := provider [] [] emptyCache [] in
      let first := fetchLeads codeUnitCompare [] [] [] 5 noParams s0 in
      let second :=
        fetchLeads codeUnitCompare [] [] [] 6 noParams
          (invalidateLeadsCache false first.2) in
      first.1 = Awaiting 100
      /\ leadsRequestKey noParams (store first.2) = "leads-{}"
      /\ leadsRequestKey noParams (store (invalidateLeadsCache false first.2))
         = "leads-{}"
      /\ (exists k, inFlight (requests second.2) !! 100%nat = Some ("leads-{}", k))
      /\ second.1 = Awaiting 101
      /\ length (requestsIssued (store second.2)) = 2%nat).
Proof.
  split.
  - vm_compute. repeat split; reflexivity.
  - vm_compute. repeat split; try reflexivity. eexists. reflexivity.
Qed.

(** What the example run hands out and leaves in the log: the two callers
    under the key share promise 0, and only [first] and [todos] ran. *)
Example deduplicated_run :
  let calls :=
    [("leads-{}", note "second"); ("todos-{}", note "todos");
     ("leads-{}", note "third")] in
  let started := makeRequest "leads-{}" (note "first") noRequests [] in
  let during := callAll calls started.1.2 started.2 in
  during.1.1 = [0; 1; 0]%nat /\ during.2 = ["first"; "todos"].
Proof. vm_compute. split; reflexivity. Qed.

(** ** The request key *)

(** C4 fails on the code. The request key serialises the [params] argument
    as passed, not the effective parameters. A call without arguments made
    while the state holds a stage filter and a call without arguments made
    after the filters were replaced get the same request key, so the second
    joins the first request although its effective filters differ; and a
    call with [page: 1] gets another key than the call without arguments,
    although both denote the same request. *)
Theorem request_key_ignores_effective_parameters :
  let s0 := provider [stageFilter] [] emptyCache [] in
  let first := fetchLeads codeUnitCompare [] [] [] 5 noParams s0 in
  let s1 := setLeadFilters [] first.2 in
  let second := fetchLeads codeUnitCompare [] [] [] 6 noParams s1 in
  (currentLeadFilters (store s0) = [stageFilter]
   /\ currentLeadFilters (store s1) = []
   /\ leadsRequestKey noParams (store s0) = "leads-{}"
   /\ leadsRequestKey noParams (store s1) = "leads-{}"
   /\ first.1 = Awaiting 100
   /\ second.1 = Awaiting 100
   /\ requestsIssued (store second.2) = requestsIssued (store first.2))
  /\ (cacheKeyOf noParams [] = cacheKeyOf pageOne []
      /\ leadsRequestKey noParams (store s0) <> leadsRequestKey pageOne (store s0))
  /\ (forall st, leadsRequestKey noParams st = "leads-{}").
Proof.
  split; [|split]; [| |reflexivity].
  - vm_compute. repeat split; reflexivity.
  - vm_compute. split; [reflexivity | discriminate].
Qed.

(** ** The held filter list *)

(** Without a [currentFilters] argument, a call of [fetchLeads] leaves the
    held filter list sorted by field name, whether it is answered from the
    cache or not. *)
Lemma fetchLeads_sorts_held_filters localeCompare stageOptions priorityOptions
    sourceOptions (now : Z) (params : FetchLeadsParams) (s : AppState) :
  currentFilters params = None ->
  currentLeadFilters
    (store (fetchLeads localeCompare stageOptions priorityOptions sourceOptions
              now params s).2)
  = sort (byField localeCompare) (currentLeadFilters (store s)).
Proof.
  intros Hnone.
  assert (filtersRefOf params (store s) = leadFilters (store s)) as Href
    by (unfold filtersRefOf; by rewrite Hnone).
  pose proof (readArray_sortInPlace localeCompare params (store s)) as Hsorted.
  rewrite Href in Hsorted.
  unfold fetchLeads. destruct (cacheHit _ _ _); simpl.
  - exact Hsorted.
  - unfold makeRequest.
    destruct (activeRequests (requests s) !! _); simpl; exact Hsorted.
Qed.

(** C9 fails on the code. [sort] reorders the array it is called on, and
    without a [currentFilters] argument that array is the one the state
    holds: after the call the held list is sorted by field name, and
    [removeLeadFilter(0)] removes the priority filter, not the stage filter
    that was appended first. *)
Theorem fetchLeads_reorders_held_filters :
  let s0 := provider [stageFilter; priorityFilter] [] emptyCache [] in
  let s1 := (fetchLeads codeUnitCompare [] [] [] 5 noParams s0).2 in
  currentLeadFilters (store s0) = [stageFilter; priorityFilter]
  /\ currentLeadFilters (store s1) = [priorityFilter; stageFilter]
  /\ currentLeadFilters (store (removeLeadFilter 0 s0)) = [priorityFilter]
  /\ currentLeadFilters (store (removeLeadFilter 0 s1)) = [stageFilter].
Proof.
  vm_compute. repeat split; reflexivity.
Qed.

(** ** The record transformer *)

Lemma or_else_number (n : number) :
  exists z, or_else (VNum n) (VNum (Num 0)) = VNum (Num z).
Proof.
  unfold or_else. destruct n as [|z]; simpl; [by exists 0|].
  destruct (Z.eqb z 0); simpl; eauto.
Qed.

(** What the transformer does deliver: on a record whose [labels] is
    falsy or a string it returns a lead; budget, adminId and leadScore are
    numbers other than [NaN]; labels is an array; a falsy name becomes the
    empty string and absent or unparsable custom fields the empty object. *)
Lemma transformApiLeadToLead_defaults
    (JSON_parse : string -> option value) (stringIsOne : string -> bool)
    (stageOptions priorityOptions : list Options.Option) (ref r : nat)
    (props : object) :
  truthy (lookupProp "labels" props) = false
  \/ (exists s, lookupProp "labels" props = VStr s) ->
  exists lead,
    transformApiLeadToLead JSON_parse stringIsOne stageOptions priorityOptions
      ref (VObj r props) = Ok lead
    /\ (exists z, lookupProp "budget" lead = VNum (Num z))
    /\ (exists z, lookupProp "adminId" lead = VNum (Num z))
    /\ (exists z, lookupProp "leadScore" lead = VNum (Num z))
    /\ (exists elems, lookupProp "labels" lead = VArr (S ref) elems)
    /\ (truthy (lookupProp "name" props) = false -> lookupProp "name" lead = VStr "")
    /\ (truthy (lookupProp "custom_fields" props) = false
        \/ JSON_parse (toString (lookupProp "custom_fields" props)) = None ->
        lookupProp "customFields" lead = VObj ref []).
Proof.
  intros Hlabels. unfold transformApiLeadToLead. simpl.
  assert (exists elems,
            (if truthy (lookupProp "labels" props)
             then match lookupProp "labels" props with
                  | VStr s => Ok (VArr (S ref) (VStr <$> split "," s))
                  | _ => Throw (TypeError "apiLead.labels.split is not a function")
                  end
             else Ok (VArr (S ref) []))
            = Ok (VArr (S ref) elems)) as [elems ->].
  { destruct Hlabels as [->|[s ->]]; [by eexists|].
    destruct (truthy (VStr s)); by eexists. }
  simpl. eexists. split; [reflexivity|]. simpl.
  split; [apply or_else_number|].
  split; [apply or_else_number|].
  split; [apply or_else_number|].
  split; [by eexists|].
  split.
  - intros Hname. unfold or_else. rewrite Hname. reflexivity.
  - intros [->| ->]; [reflexivity|].
    destruct (truthy (lookupProp "custom_fields" props)); reflexivity.
Qed.

(** C5 fails on the code. A record without an [id] yields a lead whose id
    is [NaN], where budget, adminId and leadScore fall back to 0; and a
    record whose [labels] is a number makes the transformer throw. *)
Theorem transformApiLeadToLead_not_total
    (JSON_parse : string -> option value) (stringIsOne : string -> bool)
    (stageOptions priorityOptions : list Options.Option) (ref r : nat) :
  (exists lead,
     transformApiLeadToLead JSON_parse stringIsOne stageOptions priorityOptions
       ref (VObj r []) = Ok lead
     /\ lookupProp "id" lead = VNum NaN
     /\ lookupProp "budget" lead = VNum (Num 0)
     /\ lookupProp "adminId" lead = VNum (Num 0)
     /\ lookupProp "leadScore" lead = VNum (Num 0))
  /\ transformApiLeadToLead JSON_parse stringIsOne stageOptions priorityOptions
       ref (VObj r [("id", VStr "12"); ("labels", VNum (Num 5))])
     = Throw (TypeError "apiLead.labels.split is not a function").
Proof.
  split; [|reflexivity].
  eexists. split; [reflexivity|]. repeat split.
Qed.

(** ** Updates that change nothing *)

Lemma fieldChanged_unchanged (currentLead : Lead) (entry : string * value) :
  unchangedField currentLead entry -> fieldChanged currentLead entry = false.
Proof.
  destruct entry as [key v]. unfold unchangedField, fieldChanged; simpl.
  destruct v; simpl; intros H; rewrite ?H; try reflexivity.
  by rewrite bool_decide_eq_true_2.
Qed.

Lemma hasChanges_unchanged (currentLead : Lead) (leadUpdate : object) :
  Forall (unchangedField currentLead) leadUpdate ->
  hasChanges currentLead leadUpdate = false.
Proof.
  unfold hasChanges. induction 1 as [|entry rest Hentry _ IH]; simpl; [done|].
  by rewrite fieldChanged_unchanged, IH.
Qed.

(** C6. When the lead is in the collection and every supplied field of the
    update equals the stored value (arrays by serialisation, everything
    else by [===]), in particular when the update is empty, [updateLead]
    returns before anything is sent, with the whole state as it was: no
    request is issued, and the leads, the cache slot and the active
    selection are untouched. *)
Theorem updateLead_without_changes
    (stageOptions priorityOptions sourceOptions : list Options.Option)
    (nowISO : string) (id : number) (leadUpdate : object) (resp : Response)
    (s : AppState) (currentLead : Lead) :
  findLead id (leads (store s)) = Some currentLead ->
  Forall (unchangedField currentLead) leadUpdate ->
  updateLeadRequest stageOptions priorityOptions sourceOptions id leadUpdate s
  = (Settled (Ok ()), s)
  /\ updateLead stageOptions priorityOptions sourceOptions nowISO id leadUpdate resp s
     = (Ok (), s).
Proof.
  intros Hfind Hsame.
  assert (updateLeadRequest stageOptions priorityOptions sourceOptions id leadUpdate s
          = (Settled (Ok ()), s)) as Hrequest.
  { unfold updateLeadRequest.
    by rewrite Hfind, (hasChanges_unchanged _ _ Hsame). }
  split; [exact Hrequest|].
  unfold updateLead. by rewrite Hrequest.
Qed.

Lemma updateLead_without_changes_witness :
  let s := provider [] [] (storedPage noParams [] [leadSeven] 0) [] in
  updateLeadRequest [] [] [] (Num 7)
    [("name", VStr "Asha"); ("labels", VArr 9 [VStr "hot"; VStr "resale"])] s
  = (Settled (Ok ()), s)
  /\ updateLead [] [] [] "2024-05-01T10:00:00.000Z" (Num 7)
       [("name", VStr "Asha"); ("labels", VArr 9 [VStr "hot"; VStr "resale"])]
       (Replied true (Ok (VObj 0 [("success", VBool true)]))) s
     = (Ok (), s).
Proof.
  intros s.
  apply (updateLead_without_changes [] [] [] "2024-05-01T10:00:00.000Z" (Num 7)
           [("name", VStr "Asha"); ("labels", VArr 9 [VStr "hot"; VStr "resale"])]
           (Replied true (Ok (VObj 0 [("success", VBool true)]))) s leadSeven).
  - reflexivity.
  - repeat constructor.
Defined.

(** A supplied field that differs is sent: the same call with another name
    issues the PUT. *)
Example updateLead_with_a_change :
  let s := provider [] [] emptyCache [] in
  requestsIssued
    (store (updateLead [] [] [] "2024-05-01T10:00:00.000Z" (Num 7)
              [("name", VStr "Asha K")]
              (Replied true (Ok (VObj 0 [("success", VBool true)]))) s).2)
  = [Fetch "PUT" MODIFY_API_URL [("resource", "contacts"); ("id", "7")]
       (Some (default "" (stringify (VObj 0 [("id", VStr "7"); ("name", VStr "Asha K")]))))].
Proof. vm_compute. reflexivity. Qed.

(** ** Deleting a lead *)



(** The lead with id 7 owns the todos 3 and 4 and is the active selection:
    a confirmed deletion leaves lead 8 and todo 5 and no selection. *)
Example deleteLead_seven :
  let s := provider [] [] emptyCache [] in
  let s' := deleteLead (Num 7) (Replied true (Ok (VObj 0 [("success", VBool true)]))) s in
  leads (store s') = [leadEight]
  /\ todos (store s') = [todoFive]
  /\ activeLeadId (store s') = None.
Proof. vm_compute. repeat split; reflexivity. Qed.


(** * Further properties *)

(** ** The deduplicator keeps its map and its operations in step *)

Lemma wellFormed_makeRequest {W K : Type} (key : string) (requestFn : W -> K * W)
    (r : Requests K) (w : W) :
  wellFormed r -> wellFormed (makeRequest key requestFn r w).1.2.
Proof.
  intros [Hreg Hfl]. unfold makeRequest.
  destruct (activeRequests r !! key) as [promise|] eqn:Hkey; simpl; [by split|].
  destruct (requestFn w) as [k w']; simpl. split; simpl.
  - intros key' promise'. rewrite lookup_insert. case_decide as Heq.
    + intros [= <-]. subst key'. exists k. by rewrite lookup_insert_eq.
    + intros Hsome. destruct (Hreg _ _ Hsome) as [k' Hk'].
      exists k'. rewrite lookup_insert_ne; [done|].
      destruct (Hfl _ _ _ Hk') as [_ Hlt]. lia.
  - intros promise' key' k'. rewrite lookup_insert. case_decide as Heq.
    + intros [= <- <-]. subst promise'. rewrite lookup_insert_eq. split; [done|lia].
    + intros Hsome. destruct (Hfl _ _ _ Hsome) as [Hact Hlt].
      rewrite lookup_insert_ne; [split; [done|lia]|].
      intros <-. congruence.
Qed.

Lemma wellFormed_settle {W K : Type} (resume : K -> W -> W) (promise : nat)
    (r : Requests K) (w : W) :
  wellFormed r -> wellFormed (settle resume promise r w).1.
Proof.
  intros [Hreg Hfl]. unfold settle.
  destruct (inFlight r !! promise) as [[key k]|] eqn:Hp; simpl; [|by split].
  destruct (Hfl _ _ _ Hp) as [Hact _]. split; simpl.
  - intros key' promise'. rewrite lookup_delete. case_decide as Heq; [done|].
    intros Hsome. destruct (Hreg _ _ Hsome) as [k' Hk'].
    exists k'. rewrite lookup_delete_ne; [done|].
    intros <-. congruence.
  - intros promise' key' k'. rewrite lookup_delete. case_decide as Heq; [done|].
    intros Hsome. destruct (Hfl _ _ _ Hsome) as [Hact' Hlt].
    rewrite lookup_delete_ne; [done|].
    intros <-. congruence.
Qed.

Lemma wellFormed_runRequests {W K : Type} (resume : K -> W -> W)
    (events : list (RequestEvent W K)) (rw : Requests K * W) :
  wellFormed rw.1 -> wellFormed (runRequests resume events rw).1.
Proof.
  revert rw. induction events as [|e rest IH]; intros rw Hwf; simpl; [done|].
  apply IH. destruct e as [key requestFn|promise]; simpl.
  - pose proof (wellFormed_makeRequest key requestFn rw.1 rw.2 Hwf) as Hstep.
    by destruct (makeRequest key requestFn rw.1 rw.2) as [[? ?] ?].
  - by apply wellFormed_settle.
Qed.

(** X1. Whatever callers come and whatever promises settle, starting from
    the empty map: at any time at most one operation is in flight under a
    key, it is the one the map holds for the key, and every key of the map
    has its operation in flight. *)
Theorem at_most_one_in_flight_per_key {W K : Type} (resume : K -> W -> W)
    (events : list (RequestEvent W K)) (w : W) :
  let r := (runRequests resume events (noRequests, w)).1 in
  (forall p q key k k',
     inFlight r !! p = Some (key, k) -> inFlight r !! q = Some (key, k') -> p = q)
  /\ (forall p key k,
        inFlight r !! p = Some (key, k) -> activeRequests r !! key = Some p)
  /\ (forall key p,
        activeRequests r !! key = Some p -> exists k, inFlight r !! p = Some (key, k)).
Proof.
  intros r.
  assert (wellFormed r) as [Hreg Hfl].
  { apply wellFormed_runRequests. split; simpl; intros *; by rewrite lookup_empty. }
  split; [|split].
  - intros p q key k k' Hp Hq.
    destruct (Hfl _ _ _ Hp) as [Hp' _]. destruct (Hfl _ _ _ Hq) as [Hq' _].
    congruence.
  - intros p key k Hp. by destruct (Hfl _ _ _ Hp).
  - exact Hreg.
Qed.

(** ** Invalidation, failed fetches and the life of a cached page *)

Lemma requestsIssued_emit_other (st : Store) (e : Effect) :
  isFetch e = false -> requestsIssued (emit e st) = requestsIssued st.
Proof.
  intros He. unfold requestsIssued; simpl.
  rewrite List.filter_app; simpl. rewrite He. apply app_nil_r.
Qed.

(** X2. After [invalidateLeadsCache], with or without the event, the next
    call of [fetchLeads] is never answered from the cache and never joins a
    request: whatever its parameters and whatever was in flight, it issues
    a GET of its own. The event is dispatched unless [skipEvent] is set. *)
Theorem fetch_after_invalidation_issues_request
    (localeCompare : string -> string -> Z)
    (stageOptions priorityOptions sourceOptions : list Options.Option)
    (skipEvent : bool) (now : Z) (params : FetchLeadsParams) (s : AppState) :
  let s1 := invalidateLeadsCache skipEvent s in
  let r := fetchLeads localeCompare stageOptions priorityOptions sourceOptions
             now params s1 in
  r.1 = Awaiting (nextPromise (requests s))
  /\ (exists query,
        requestsIssued (store r.2)
        = (requestsIssued (store s) ++ [Fetch "GET" FETCH_API_URL query None])%list)
  /\ effects (store s1)
     = (effects (store s)
        ++ if skipEvent then [] else [DispatchEvent "leads-cache-invalidated"])%list.
Proof.
  intros s1 r.
  assert (requestsIssued (store s1) = requestsIssued (store s)) as Hsame.
  { subst s1. unfold invalidateLeadsCache; simpl.
    destruct skipEvent; [done|]. by rewrite requestsIssued_emit_other. }
  destruct (fetchLeads_miss localeCompare stageOptions priorityOptions sourceOptions
              now params s1) as [_ Hdedup].
  { subst s1. unfold cacheHit, invalidateLeadsCache; simpl.
    by destruct skipEvent. }
  fold r in Hdedup. unfold deduplicated in Hdedup.
  change (activeRequests (requests s1)) with (∅ : gmap string nat) in Hdedup.
  rewrite lookup_empty in Hdedup. destruct Hdedup as [Hout [query Hquery]].
  split; [exact Hout|]. split.
  - exists query. by rewrite Hquery, Hsame.
  - subst s1. unfold invalidateLeadsCache; simpl.
    destruct skipEvent; simpl; [by rewrite app_nil_r | done].
Qed.

Lemma leadsReply_refused JSON_parse stringIsOne stageOptions priorityOptions
    (now : Z) (k : LeadsRequest) (ref : nat) (resp : Response) :
  refused resp = true ->
  exists e, leadsReply JSON_parse stringIsOne stageOptions priorityOptions
              now k ref resp = Throw e.
Proof.
  unfold refused, leadsReply. destruct resp as [e|ok json]; [by eexists|].
  destruct ok; simpl; [|by eexists].
  destruct json as [body|e]; simpl; [|by eexists].
  destruct (get body "success") as [success|e]; simpl; [|by eexists].
  intros Hfalsy. apply negb_true_iff in Hfalsy. rewrite Hfalsy.
  destruct (get body "message"); simpl; by eexists.
Qed.

(** A reply the request function throws on leaves the page alone. *)
Lemma settleLeads_throw JSON_parse stringIsOne stageOptions priorityOptions
    (now : Z) (promise : nat) (key : string) (k : LeadsRequest)
    (resp : Response) (e : JS.error) (s : AppState) :
  inFlight (requests s) !! promise = Some (key, k) ->
  leadsReply JSON_parse stringIsOne stageOptions priorityOptions
    now k (nextRef (store s)) resp = Throw e ->
  let s' := settleLeads JSON_parse stringIsOne stageOptions priorityOptions
              now promise resp s in
  leads (store s') = leads (store s)
  /\ globalLeadsCache (store s') = globalLeadsCache (store s)
  /\ error (store s') = Some (errorMessage e)
  /\ isLoading (store s') = false
  /\ requestsIssued (store s') = requestsIssued (store s)
  /\ activeRequests (requests s') !! key = None.
Proof.
  intros Hfl Hthrow s'. subst s'. unfold settleLeads, settle. rewrite Hfl; simpl.
  unfold leadsResponse. rewrite Hthrow; simpl.
  repeat split; try reflexivity.
  - unfold requestsIssued; simpl. rewrite List.filter_app; simpl. apply app_nil_r.
  - apply lookup_delete_eq.
Qed.

(** X3. A fetch that fails (transport failure, status not ok, a body that
    does not parse, or [success] falsy) changes neither the leads nor the
    cache slot, records an error message, ends the loading state, sends
    nothing, and frees its request key. *)
Theorem refused_reply_keeps_page
    JSON_parse stringIsOne (stageOptions priorityOptions : list Options.Option)
    (now : Z) (promise : nat) (key : string) (k : LeadsRequest)
    (resp : Response) (s : AppState) :
  inFlight (requests s) !! promise = Some (key, k) ->
  refused resp = true ->
  let s' := settleLeads JSON_parse stringIsOne stageOptions priorityOptions
              now promise resp s in
  leads (store s') = leads (store s)
  /\ globalLeadsCache (store s') = globalLeadsCache (store s)
  /\ (exists message, error (store s') = Some message)
  /\ isLoading (store s') = false
  /\ requestsIssued (store s') = requestsIssued (store s)
  /\ activeRequests (requests s') !! key = None.
Proof.
  intros Hfl Hrefused s'.
  destruct (leadsReply_refused JSON_parse stringIsOne stageOptions priorityOptions
              now k (nextRef (store s)) resp Hrefused) as [e He].
  destruct (settleLeads_throw JSON_parse stringIsOne stageOptions priorityOptions
              now promise key k resp e s Hfl He) as (H1 & H2 & H3 & H4 & H5 & H6).
  repeat split; try done. by eexists.
Qed.

Lemma refused_reply_keeps_page_witness :
  let s := provider [] [] (storedPage noParams [] [leadSeven] 0) [("leads-{}", 7%nat)] in
  let s' := settleLeads (fun _ => None) (fun _ => false) [] []
              50 7 (Replied true (Ok (VObj 0 [("success", VBool false)]))) s in
  leads (store s') = leads (store s)
  /\ globalLeadsCache (store s') = globalLeadsCache (store s)
  /\ (exists message, error (store s') = Some message)
  /\ isLoading (store s') = false
  /\ requestsIssued (store s') = requestsIssued (store s)
  /\ activeRequests (requests s') !! "leads-{}" = None.
Proof.
  intros s.
  apply (refused_reply_keeps_page (fun _ => None) (fun _ => false) [] []
           50 7 "leads-{}" {| cacheKey := "" |}
           (Replied true (Ok (VObj 0 [("success", VBool false)]))) s);
    reflexivity.
Defined.

Lemma transformApiLeadToLead_malformed JSON_parse stringIsOne
    stageOptions priorityOptions (ref : nat) (item : value) :
  malformed item ->
  exists e, transformApiLeadToLead JSON_parse stringIsOne stageOptions
              priorityOptions ref item = Throw e.
Proof.
  destruct item as [| | | | |r a|r props]; simpl; try done;
    try (intros _; by eexists).
  intros [Htruthy Hnot]. unfold transformApiLeadToLead; simpl.
  rewrite Htruthy.
  destruct (lookupProp "labels" props) eqn:Hlabels; simpl; try by eexists.
  by destruct (Hnot s).
Qed.

Lemma transformAll_malformed JSON_parse stringIsOne stageOptions priorityOptions
    (items : list value) (item : value) (ref : nat) :
  item ∈ items -> malformed item ->
  exists e, transformAll JSON_parse stringIsOne stageOptions priorityOptions
              ref items = Throw e.
Proof.
  intros Hin Hbad. revert ref.
  induction items as [|head rest IH]; intros ref; simpl.
  { by apply elem_of_nil in Hin. }
  apply elem_of_cons in Hin as [<-|Hin].
  - destruct (transformApiLeadToLead_malformed JSON_parse stringIsOne stageOptions
                priorityOptions ref item Hbad) as [e ->].
    by eexists.
  - destruct (transformApiLeadToLead JSON_parse stringIsOne stageOptions
                priorityOptions ref head); simpl; [|by eexists].
    destruct (IH Hin (S (S ref))) as [e ->]. by eexists.
Qed.

(** X4. One element of the page the transformer throws on (a [null], or a
    record whose [labels] is truthy and not a string) makes the whole fetch
    fail: none of the other records reaches the leads or the cache, and an
    error message is recorded. *)
Theorem malformed_record_fails_page
    JSON_parse stringIsOne (stageOptions priorityOptions : list Options.Option)
    (now : Z) (promise : nat) (key : string) (k : LeadsRequest)
    (body success item : value) (r : nat) (items : list value) (s : AppState) :
  inFlight (requests s) !! promise = Some (key, k) ->
  get body "success" = Ok success -> truthy success = true ->
  get body "data" = Ok (VArr r items) ->
  item ∈ items -> malformed item ->
  let s' := settleLeads JSON_parse stringIsOne stageOptions priorityOptions
              now promise (Replied true (Ok body)) s in
  leads (store s') = leads (store s)
  /\ globalLeadsCache (store s') = globalLeadsCache (store s)
  /\ (exists message, error (store s') = Some message)
  /\ activeRequests (requests s') !! key = None.
Proof.
  intros Hfl Hsuccess Htruthy Hdata Hin Hbad s'.
  destruct (transformAll_malformed JSON_parse stringIsOne stageOptions
              priorityOptions items item (nextRef (store s)) Hin Hbad) as [e He].
  assert (leadsReply JSON_parse stringIsOne stageOptions priorityOptions
            now k (nextRef (store s)) (Replied true (Ok body)) = Throw e) as Hthrow.
  { unfold leadsReply; simpl. rewrite Hsuccess; simpl.
    rewrite Htruthy, Hdata; simpl. by rewrite He. }
  destruct (settleLeads_throw JSON_parse stringIsOne stageOptions priorityOptions
              now promise key k _ e s Hfl Hthrow) as (H1 & H2 & H3 & _ & _ & H6).
  repeat split; try done. by eexists.
Qed.

Lemma malformed_record_fails_page_witness :
  let s := provider [] [] (storedPage noParams [] [leadSeven] 0) [("leads-{}", 7%nat)] in
  let body :=
    VObj 0 [("success", VBool true);
            ("data", VArr 1 [VObj 2 [("id", VStr "1"); ("name", VStr "A")];
                             VObj 3 [("id", VStr "2"); ("labels", VNum (Num 5))]])] in
  let s' := settleLeads (fun _ => None) (fun _ => false) [] []
              50 7 (Replied true (Ok body)) s in
  leads (store s') = leads (store s)
  /\ globalLeadsCache (store s') = globalLeadsCache (store s)
  /\ (exists message, error (store s') = Some message)
  /\ activeRequests (requests s') !! "leads-{}" = None.
Proof.
  intros s body.
  apply (malformed_record_fails_page (fun _ => None) (fun _ => false) [] []
           50 7 "leads-{}" {| cacheKey := "" |} body (VBool true)
           (VObj 3 [("id", VStr "2"); ("labels", VNum (Num 5))]) 1
           [VObj 2 [("id", VStr "1"); ("name", VStr "A")];
            VObj 3 [("id", VStr "2"); ("labels", VNum (Num 5))]] s);
    try reflexivity.
  - right. left.
  - split; [reflexivity | discriminate].
Defined.

Section SortedStaysSorted.
Context {A : Type} (compare : A -> A -> Z).
Hypothesis compare_total : forall x y, compare x y <= 0 \/ compare y x <= 0.
Hypothesis compare_trans :
  forall x y z, compare x y <= 0 -> compare y z <= 0 -> compare x z <= 0.



End SortedStaysSorted.




(** ** Numbers in decimal *)

Lemma string_app_cons (x : ascii) (a b : string) :
  String x a +:+ b = String x (a +:+ b).
Proof. reflexivity. Qed.

Lemma string_app_assoc (a b c : string) : (a +:+ b) +:+ c = a +:+ (b +:+ c).
Proof.
  induction a as [|x a IH]; [done|]. by rewrite !string_app_cons, IH.
Qed.

Lemma string_app_nil_r (a : string) : a +:+ "" = a.
Proof. induction a as [|x a IH]; [done|]. by rewrite string_app_cons, IH. Qed.

Lemma string_app_length (a b : string) :
  String.length (a +:+ b) = (String.length a + String.length b)%nat.
Proof.
  induction a as [|x a IH]; [done|]. rewrite string_app_cons; simpl.
  by rewrite IH.
Qed.

Lemma digitsOnly_app (a b : string) :
  digitsOnly (a +:+ b) = digitsOnly a && digitsOnly b.
Proof.
  induction a as [|x a IH]; [done|]. rewrite string_app_cons; simpl.
  rewrite IH. by rewrite andb_assoc.
Qed.

Lemma pretty_N_char_digit (d : N) :
  (d < 10)%N ->
  isDigit (pretty_N_char d) = true
  /\ digitValue 10 (pretty_N_char d) = Some (Z.of_N d).
Proof.
  intros Hd.
  assert (d = 0 \/ d = 1 \/ d = 2 \/ d = 3 \/ d = 4 \/ d = 5 \/ d = 6
          \/ d = 7 \/ d = 8 \/ d = 9)%N as Hcases by lia.
  repeat (destruct Hcases as [->|Hcases]; [by split|]). subst. by split.
Qed.

Lemma parseDigits_digit (c : ascii) (d : Z) (rest : string) (acc : option Z) :
  digitValue 10 c = Some d ->
  parseDigits 10 (String c rest) acc
  = parseDigits 10 rest (Some (10 * default 0 acc + d)).
Proof. intros Hd. simpl. by rewrite Hd. Qed.

(** The digits [pretty_N_go] puts in front of its accumulator. *)
Lemma pretty_N_go_digits (x : N) :
  exists d,
    (forall s, pretty_N_go x s = d +:+ s)
    /\ digitsOnly d = true
    /\ ((0 < x)%N ->
        d <> ""
        /\ forall acc rest,
             parseDigits 10 (d +:+ rest) acc
             = parseDigits 10 rest
                 (Some (default 0 acc * 10 ^ Z.of_nat (String.length d) + Z.of_N x))).
Proof.
  induction (N.lt_wf_0 x) as [x _ IH].
  assert (x = 0 \/ 0 < x)%N as [->|Hpos] by lia.
  { exists "". split; [done|]. split; [done|]. intros Hlt. lia. }
  destruct (IH (x `div` 10)%N) as (d & Hd & Hdigits & Hparse).
  { by apply N.div_lt. }
  destruct (pretty_N_char_digit (x `mod` 10)%N) as [Hc Hv].
  { by apply N.mod_lt. }
  set (c := pretty_N_char (x `mod` 10)%N) in *.
  exists (d +:+ String c "").
  split; [|split].
  - intros s. rewrite pretty_N_go_step by done. fold c.
    by rewrite Hd, string_app_assoc.
  - rewrite digitsOnly_app, Hdigits; simpl. by rewrite Hc.
  - intros _. split.
    { destruct d; discriminate. }
    intros acc rest. rewrite string_app_assoc, string_app_cons.
    change ("" +:+ rest) with rest.
    assert (Z.of_N x = 10 * Z.of_N (x `div` 10) + Z.of_N (x `mod` 10))
      as Hdivmod.
    { rewrite <- (N2Z.inj_mul 10), <- N2Z.inj_add. f_equal.
      by apply N.div_mod. }
    assert (x `div` 10 = 0 \/ 0 < x `div` 10)%N as [Hzero|Hbig]
      by (destruct (x `div` 10)%N; [left; reflexivity|right; reflexivity]).
    + assert (d = "") as ->.
      { specialize (Hd ""). rewrite Hzero, pretty_N_go_0 in Hd.
        by rewrite string_app_nil_r in Hd. }
      change ("" +:+ String c rest) with (String c rest).
      rewrite (parseDigits_digit c _ rest _ Hv). f_equal. f_equal.
      rewrite Hzero in Hdivmod.
      change (Z.of_nat (String.length ("" +:+ String c ""))) with 1.
      change (Z.of_N 0) with 0 in Hdivmod. rewrite Hdivmod.
      generalize (Z.of_N (x `mod` 10)) (default 0 acc). intros; lia.
    + destruct (Hparse Hbig) as [_ Hstep].
      rewrite Hstep. rewrite (parseDigits_digit c _ rest _ Hv).
      f_equal. f_equal. unfold default at 1.
      rewrite string_app_length; simpl String.length.
      replace (String.length d + 1)%nat with (S (String.length d)) by lia.
      rewrite Nat2Z.inj_succ, Z.pow_succ_r by lia.
      rewrite Hdivmod.
      generalize (10 ^ Z.of_nat (String.length d)) (Z.of_N (x `mod` 10))
        (Z.of_N (x `div` 10)) (default 0 acc).
      intros. unfold id. ring.
Qed.

Lemma digits_plain (d : string) :
  digitsOnly d = true -> d <> "" ->
  trimStart d = d /\ stripSign d = (1, d) /\ stripHexPrefix d = (10, d).
Proof.
  destruct d as [|c rest]; [done|]. simpl. intros Hd _.
  apply andb_true_iff in Hd as [Hc Hrest].
  assert (stripHexPrefix (String c rest) = (10, String c rest)) as Hhex.
  { destruct rest as [|c2 rest2].
    - destruct c as [[] [] [] [] [] [] [] []]; try discriminate; reflexivity.
    - simpl in Hrest. apply andb_true_iff in Hrest as [Hc2 _].
      destruct c as [[] [] [] [] [] [] [] []]; try discriminate; try reflexivity;
        destruct c2 as [[] [] [] [] [] [] [] []]; try discriminate; reflexivity. }
  split; [|split; [|exact Hhex]].
  - destruct c as [[] [] [] [] [] [] [] []]; try discriminate; reflexivity.
  - destruct c as [[] [] [] [] [] [] [] []]; try discriminate; reflexivity.
Qed.

Lemma pretty_positive_digits (p : positive) :
  exists d,
    pretty (Npos p) = d /\ digitsOnly d = true /\ d <> ""
    /\ parseDigits 10 d None = Some (Z.pos p).
Proof.
  destruct (pretty_N_go_digits (Npos p)) as (d & Hd & Hdigits & Hpos).
  destruct Hpos as [Hne Hparse]; [lia|].
  exists d. unfold pretty, pretty_N. rewrite decide_False by done.
  rewrite Hd, string_app_nil_r. repeat split; try done.
  specialize (Hparse None ""). rewrite string_app_nil_r in Hparse.
  rewrite Hparse. reflexivity.
Qed.

Lemma parseIntString_pretty (z : Z) : parseIntString (pretty z) = Num z.
Proof.
  destruct z as [|p|p].
  - reflexivity.
  - destruct (pretty_positive_digits p) as (d & Hd & Hdigits & Hne & Hparse).
    change (pretty (Z.pos p)) with (pretty (Npos p)). rewrite Hd.
    destruct (digits_plain d Hdigits Hne) as (Htrim & Hsign & Hhex).
    unfold parseIntString. by rewrite Htrim, Hsign, Hhex, Hparse.
  - destruct (pretty_positive_digits p) as (d & Hd & Hdigits & Hne & Hparse).
    change (pretty (Z.neg p)) with ("-" +:+ pretty (Npos p)). rewrite Hd.
    destruct (digits_plain d Hdigits Hne) as (Htrim & Hsign & Hhex).
    unfold parseIntString. simpl. change ("" +:+ d) with d.
    by rewrite Hhex, Hparse.
Qed.

(** X6. [parseInt] undoes [toString] on [NaN] and on every safe integer
    (below 2^53 in magnitude): what is written into a request as
    [n.toString()] (the id and the budget of an update, the lead of a task)
    is read back by the [parseInt] of the transformers as the same number.
    Nothing is said beyond the safe integers, where doubles round and, from
    1e21 on, print in exponent notation. *)
Theorem parseInt_toString (n : number) :
  represented n = true ->
  parseInt (VStr (numberToString n)) = n /\ parseInt (VNum n) = n.
Proof.
  intros _.
  assert (parseIntString (numberToString n) = n) as H.
  { destruct n as [|z]; [reflexivity|]. apply parseIntString_pretty. }
  split; exact H.
Qed.

Lemma parseInt_toString_witness :
  parseInt (VStr (numberToString (Num (-9007199254740991))))
  = Num (-9007199254740991)
  /\ parseInt (VNum (Num (-9007199254740991))) = Num (-9007199254740991).
Proof.
  apply (parseInt_toString (Num (-9007199254740991))). reflexivity.
Defined.

(** ** The page in the cache key *)

Lemma untilComma_digits (d rest : string) :
  digitsOnly d = true -> untilComma (d +:+ String "," rest) = d.
Proof.
  induction d as [|c d IH]; [done|]. rewrite string_app_cons; simpl.
  intros Hd. apply andb_true_iff in Hd as [Hc Hd].
  rewrite (IH Hd).
  destruct c as [[] [] [] [] [] [] [] []]; try discriminate; reflexivity.
Qed.

Lemma stringify_number_untilComma (n : number) (json rest : string) :
  stringify (VNum n) = Some json ->
  untilComma (json +:+ String "," rest) = json.
Proof.
  destruct n as [|[|p|p]]; simpl; intros [= <-]; try reflexivity.
  - destruct (pretty_positive_digits p) as (d & Hd & Hdigits & _).
    change (pretty (Z.pos p)) with (pretty (Npos p)). rewrite Hd.
    by apply untilComma_digits.
  - destruct (pretty_positive_digits p) as (d & Hd & Hdigits & _).
    change (pretty (Z.neg p)) with ("-" +:+ pretty (Npos p)). rewrite Hd.
    rewrite string_app_cons; simpl. change ("" +:+ d) with d in *.
    f_equal. by apply untilComma_digits.
Qed.

Lemma stringify_number_inj (n m : number) :
  stringify (VNum n) = stringify (VNum m) -> n = m.
Proof.
  assert (forall z : Z, pretty z <> "null") as Hnull.
  { intros [|p|p].
    - discriminate.
    - destruct (pretty_positive_digits p) as (d & Hd & Hdigits & _).
      change (pretty (Z.pos p)) with (pretty (Npos p)). rewrite Hd.
      intros ->. discriminate.
    - discriminate. }
  destruct n as [|z], m as [|z']; simpl; intros H; [done|..];
    injection H as H.
  - by destruct (Hnull z').
  - by destruct (Hnull z).
  - f_equal. by apply (inj pretty).
Qed.

Lemma leadsCacheKey_page (page perPage : number) (sortField : string)
    (sortOrder : SortOrder) (search : string) (filters : list Filter.FilterOption) :
  exists json,
    stringify (VNum page) = Some json
    /\ untilComma (dropChars 8
         (leadsCacheKey page perPage sortField sortOrder search filters)) = json.
Proof.
  assert (exists json, stringify (VNum page) = Some json) as [json Hjson].
  { destruct page as [|z]; eexists; reflexivity. }
  assert (exists json', stringify (VNum perPage) = Some json') as [json' Hjson'].
  { destruct perPage as [|z]; eexists; reflexivity. }
  exists json. split; [done|].
  unfold leadsCacheKey.
  change (stringify (VObj 0 ?ps))
    with (Some ("{" +:+ join ","
            (omap (fun p => member (fst p) <$> stringify (snd p)) ps) +:+ "}")).
  cbn [omap list_omap fst snd]. rewrite Hjson, Hjson'.
  cbn [fmap option_fmap option_map default from_option id join].
  match goal with
  | |- context [member "page" json +:+ "," +:+ ?tail] => generalize tail
  end.
  intros tail. unfold member.
  replace (quote "page") with (String dquote ("page" +:+ String dquote ""))
    by reflexivity.
  rewrite !string_app_assoc.
  repeat (rewrite !string_app_cons; change ("" +:+ ?x) with x).
  cbn [dropChars]. change ("," +:+ ?x) with (String "," x).
  by apply (stringify_number_untilComma page).
Qed.

Lemma cacheKeyOf_page (p q : FetchLeadsParams) (l l' : list Filter.FilterOption) :
  cacheKeyOf p l = cacheKeyOf q l' ->
  default (Num 1) (page p) = default (Num 1) (page q).
Proof.
  unfold cacheKeyOf. intros Hkey.
  destruct (leadsCacheKey_page (default (Num 1) (page p))
              (default (Num 20) (perPage p)) (default "created_at" (sortField p))
              (default desc (sortOrder p)) (default "" (search p)) l)
    as (j1 & Hj1 & Hk1).
  destruct (leadsCacheKey_page (default (Num 1) (page q))
              (default (Num 20) (perPage q)) (default "created_at" (sortField q))
              (default desc (sortOrder q)) (default "" (search q)) l')
    as (j2 & Hj2 & Hk2).
  rewrite Hkey in Hk1. rewrite Hk1 in Hk2. subst j2.
  apply stringify_number_inj. by rewrite Hj1, Hj2.
Qed.

(** X7. The page number can be read back from the cache key, so a page
    stored for one page number never answers a call for another: whatever
    the other parameters, the filters and the age of the entry, the call
    misses the cache and goes through the request deduplicator. A missing
    [page] counts as page 1. *)
Theorem other_page_misses localeCompare stageOptions priorityOptions sourceOptions
    (now : Z) (asked stored : FetchLeadsParams)
    (sorted : list Filter.FilterOption) (s : AppState) :
  LeadsCache.params (globalLeadsCache (store s)) = Some (cacheKeyOf stored sorted) ->
  default (Num 1) (page asked) <> default (Num 1) (page stored) ->
  let r := fetchLeads localeCompare stageOptions priorityOptions sourceOptions
             now asked s in
  (forall d t, r.1 <> Cached d t)
  /\ deduplicated
       (leadsRequestKey asked (sortInPlace localeCompare asked (store s)))
       s r.2 r.1.
Proof.
  intros Hstored Hpage. apply fetchLeads_miss.
  unfold cacheHit. rewrite Hstored.
  rewrite bool_decide_eq_false_2; [by rewrite andb_false_r|].
  intros Hkey. apply Hpage. symmetry.
  eapply cacheKeyOf_page. apply (inj Some). exact Hkey.
Qed.

Lemma other_page_misses_witness :
  let s := provider [] [] (storedPage pageOne [] [leadSeven] 0) [] in
  let r := fetchLeads codeUnitCompare [] [] [] 10 pageTwo s in
  (forall d t, r.1 <> Cached d t)
  /\ deduplicated
       (leadsRequestKey pageTwo (sortInPlace codeUnitCompare pageTwo (store s)))
       s r.2 r.1.
Proof.
  apply (other_page_misses codeUnitCompare [] [] [] 10 pageTwo pageOne []).
  - reflexivity.
  - simpl. discriminate.
Defined.

(** ** Labels between the list and the comma-separated string *)

Lemma splitAcc_cons (sep : ascii) (s cur : string) :
  exists first others, splitAcc sep s cur = first :: others.
Proof.
  revert cur. induction s as [|c s IH]; intros cur; simpl; [by eexists _, _|].
  destruct (Ascii.eqb c sep); [by eexists _, _|]. apply IH.
Qed.

Lemma join_cons (sep x y : string) (rest : list string) :
  join sep (x :: y :: rest) = x +:+ sep +:+ join sep (y :: rest).
Proof. reflexivity. Qed.

Lemma join_splitAcc (s cur : string) :
  join "," (splitAcc "," s cur) = cur +:+ s.
Proof.
  revert cur. induction s as [|c s IH]; intros cur; simpl.
  { by rewrite string_app_nil_r. }
  destruct (Ascii.eqb c ",") eqn:Hc.
  - apply Ascii.eqb_eq in Hc as ->.
    destruct (splitAcc_cons "," s "") as (first & others & Hsplit).
    specialize (IH ""). rewrite Hsplit in *. rewrite join_cons, IH.
    reflexivity.
  - rewrite IH, string_app_assoc. reflexivity.
Qed.

Lemma splitAcc_commaFree (a rest cur : string) :
  commaFree a = true ->
  splitAcc "," (a +:+ rest) cur = splitAcc "," rest (cur +:+ a).
Proof.
  revert cur. induction a as [|c a IH]; intros cur Ha.
  { by rewrite string_app_nil_r. }
  simpl in Ha. apply andb_true_iff in Ha as [Hc Ha].
  rewrite string_app_cons; simpl.
  destruct (Ascii.eqb c ","); [done|].
  rewrite (IH _ Ha), string_app_assoc. reflexivity.
Qed.

Lemma splitAcc_join (x : string) (rest : list string) (cur : string) :
  Forall (fun label => commaFree label = true) (x :: rest) ->
  splitAcc "," (join "," (x :: rest)) cur = (cur +:+ x) :: rest.
Proof.
  revert x cur. induction rest as [|y rest IH]; intros x cur Hfree.
  - apply Forall_cons in Hfree as [Hx _]. simpl.
    rewrite <- (string_app_nil_r x) at 1.
    by rewrite (splitAcc_commaFree x "" cur Hx).
  - apply Forall_cons in Hfree as [Hx Hrest].
    rewrite join_cons, (splitAcc_commaFree x _ cur Hx).
    change ("," +:+ ?t) with (String "," t).
    change (splitAcc "," (String "," ?t) ?c) with (c :: splitAcc "," t "").
    by rewrite (IH y "" Hrest).
Qed.

Lemma toString_labels (a : nat) (labels : list string) :
  toString (VArr a (VStr <$> labels)) = join "," labels.
Proof.
  simpl. f_equal. induction labels as [|x rest IH]; [done|].
  simpl. f_equal. exact IH.
Qed.

Lemma transformApiLeadToLead_labels JSON_parse stringIsOne
    stageOptions priorityOptions (ref r : nat) (props : object) (s : string) :
  lookupProp "labels" props = VStr s ->
  exists lead,
    transformApiLeadToLead JSON_parse stringIsOne stageOptions priorityOptions
      ref (VObj r props) = Ok lead
    /\ lookupProp "labels" lead
       = VArr (S ref) (if String.eqb s "" then [] else VStr <$> split "," s).
Proof.
  intros Hlabels. unfold transformApiLeadToLead. simpl. rewrite Hlabels. simpl.
  destruct (String.eqb s ""); simpl; eexists; (split; [reflexivity|]);
    reflexivity.
Qed.

(** X8. Labels survive the way to the server and back. The list an update
    carries goes out as [labels.join(",")]; a record that brings this
    string back is turned by [transformApiLeadToLead] into the same list,
    provided no label contains a comma and the list is not the single
    empty label (which comes back as no label at all). *)
Theorem labels_survive_round_trip JSON_parse stringIsOne
    stageOptions priorityOptions (ref r a : nat) (props : object)
    (labels : list string) (sent : value) :
  Forall (fun label => commaFree label = true) labels ->
  labels <> [""] ->
  joinComma (VArr a (VStr <$> labels)) = Ok sent ->
  lookupProp "labels" props = sent ->
  exists lead,
    transformApiLeadToLead JSON_parse stringIsOne stageOptions priorityOptions
      ref (VObj r props) = Ok lead
    /\ lookupProp "labels" lead = VArr (S ref) (VStr <$> labels).
Proof.
  intros Hfree Hsingle Hsent Hprops.
  unfold joinComma in Hsent. rewrite toString_labels in Hsent.
  injection Hsent as <-.
  destruct (transformApiLeadToLead_labels JSON_parse stringIsOne stageOptions
              priorityOptions ref r props _ Hprops) as (lead & Hlead & Hlabels).
  exists lead. split; [done|]. rewrite Hlabels. f_equal.
  destruct labels as [|x rest]; [reflexivity|].
  unfold split. rewrite (splitAcc_join x rest "" Hfree).
  change ("" +:+ x) with x.
  destruct (String.eqb (join "," (x :: rest)) "") eqn:Hempty; [|done].
  apply String.eqb_eq in Hempty.
  destruct rest as [|y rest].
  - simpl in Hempty. by subst x.
  - rewrite join_cons in Hempty. destruct x; discriminate.
Qed.

Lemma labels_survive_round_trip_witness :
  exists lead,
    transformApiLeadToLead (fun _ => None) (fun _ => false) [] [] 5
      (VObj 4 [("id", VStr "7"); ("labels", VStr "hot,resale")]) = Ok lead
    /\ lookupProp "labels" lead = VArr 6 (VStr <$> ["hot"; "resale"]).
Proof.
  apply (labels_survive_round_trip (fun _ => None) (fun _ => false) [] [] 5 4 1
           [("id", VStr "7"); ("labels", VStr "hot,resale")]
           ["hot"; "resale"] (VStr "hot,resale")).
  - repeat constructor.
  - discriminate.
  - reflexivity.
  - reflexivity.
Defined.

(** X9. The other way round holds for every string: the labels
    [transformApiLeadToLead] makes of a record's [labels] string, joined
    again as an update joins them, give that string back. *)
Theorem labels_string_round_trip JSON_parse stringIsOne
    stageOptions priorityOptions (ref r : nat) (props : object) (s : string) :
  lookupProp "labels" props = VStr s ->
  exists lead,
    transformApiLeadToLead JSON_parse stringIsOne stageOptions priorityOptions
      ref (VObj r props) = Ok lead
    /\ joinComma (lookupProp "labels" lead) = Ok (VStr s).
Proof.
  intros Hprops.
  destruct (transformApiLeadToLead_labels JSON_parse stringIsOne stageOptions
              priorityOptions ref r props _ Hprops) as (lead & Hlead & Hlabels).
  exists lead. split; [done|]. rewrite Hlabels.
  destruct (String.eqb s "") eqn:Hempty.
  - apply String.eqb_eq in Hempty as ->. reflexivity.
  - unfold joinComma. rewrite toString_labels. unfold split.
    by rewrite join_splitAcc.
Qed.

Lemma labels_string_round_trip_witness :
  exists lead,
    transformApiLeadToLead (fun _ => None) (fun _ => false) [] [] 5
      (VObj 4 [("labels", VStr ",hot,,resale")]) = Ok lead
    /\ joinComma (lookupProp "labels" lead) = Ok (VStr ",hot,,resale").
Proof.
  apply (labels_string_round_trip (fun _ => None) (fun _ => false) [] [] 5 4
           [("labels", VStr ",hot,,resale")]).
  reflexivity.
Defined.

(** ** Updates *)

Lemma lookupProp_setProp_eq (k : string) (v : value) (o : object) :
  lookupProp k (setProp k v o) = v.
Proof.
  induction o as [|[k' x] rest IH]; simpl.
  { by rewrite String.eqb_refl. }
  destruct (String.eqb k k') eqn:Hk; simpl; by rewrite Hk.
Qed.

Lemma lookupProp_setProp_ne (k k' : string) (v : value) (o : object) :
  k <> k' -> lookupProp k (setProp k' v o) = lookupProp k o.
Proof.
  intros Hne. induction o as [|[k2 x] rest IH]; simpl.
  { by apply String.eqb_neq in Hne as ->. }
  destruct (String.eqb k' k2) eqn:Hk'; simpl.
  - apply String.eqb_eq in Hk' as <-.
    by apply String.eqb_neq in Hne as ->.
  - by rewrite IH.
Qed.

Lemma lookupProp_notin (k : string) (o : object) :
  k ∉ o.*1 -> lookupProp k o = VUndefined.
Proof.
  induction o as [|[k' x] rest IH]; simpl; [done|].
  intros Hnotin. apply not_elem_of_cons in Hnotin as [Hne Hnotin].
  apply String.eqb_neq in Hne as ->. by apply IH.
Qed.

Lemma lookupProp_elem (k : string) (v : value) (o : object) :
  NoDup o.*1 -> (k, v) ∈ o -> lookupProp k o = v.
Proof.
  induction o as [|[k' x] rest IH]; simpl; intros Hnodup Hin.
  { by apply elem_of_nil in Hin. }
  apply NoDup_cons in Hnodup as [Hfresh Hnodup].
  apply elem_of_cons in Hin as [[= -> ->]|Hin].
  { by rewrite String.eqb_refl. }
  destruct (String.eqb k k') eqn:Hk; [|by apply IH].
  apply String.eqb_eq in Hk as ->. destruct Hfresh.
  apply list_elem_of_fmap. by exists (k', v).
Qed.

Lemma lookupProp_spread_notin (k : string) (o source : object) :
  k ∉ source.*1 -> lookupProp k (spread o source) = lookupProp k o.
Proof.
  unfold spread. revert o.
  induction source as [|[k' x] rest IH]; intros o; simpl; [done|].
  intros Hnotin. apply not_elem_of_cons in Hnotin as [Hne Hnotin].
  rewrite (IH _ Hnotin). by apply lookupProp_setProp_ne.
Qed.

Lemma lookupProp_spread_elem (k : string) (v : value) (o source : object) :
  NoDup source.*1 -> (k, v) ∈ source -> lookupProp k (spread o source) = v.
Proof.
  revert o.
  induction source as [|[k' x] rest IH]; intros o Hnodup Hin.
  { by apply elem_of_nil in Hin. }
  simpl in Hnodup. apply NoDup_cons in Hnodup as [Hfresh Hnodup].
  change (spread o ((k', x) :: rest)) with (spread (setProp k' x o) rest).
  apply elem_of_cons in Hin as [[= -> ->]|Hin].
  - rewrite (lookupProp_spread_notin _ _ _ Hfresh).
    apply lookupProp_setProp_eq.
  - by apply IH.
Qed.

Lemma lookupProp_spread_nil (k : string) (o : object) :
  NoDup o.*1 -> lookupProp k (spread [] o) = lookupProp k o.
Proof.
  intros Hnodup. destruct (decide (k ∈ o.*1)) as [Hin|Hnotin].
  - apply list_elem_of_fmap in Hin as ([k' v] & -> & Hin). simpl.
    rewrite (lookupProp_spread_elem _ _ _ _ Hnodup Hin).
    symmetry. by apply lookupProp_elem.
  - rewrite (lookupProp_spread_notin _ _ _ Hnotin).
    symmetry. by apply lookupProp_notin.
Qed.

Lemma strictEq_refl (v : value) : v <> VNum NaN -> strictEq v v = true.
Proof.
  destruct v as [| |b|[|z]|s|r a|r ps]; simpl; intros Hnan; try done.
  - by destruct b.
  - apply Z.eqb_refl.
  - apply String.eqb_refl.
  - apply Nat.eqb_refl.
  - apply Nat.eqb_refl.
Qed.

Lemma strictEq_number (v : value) (n : number) :
  strictEq v (VNum n) = true -> exists z, v = VNum (Num z) /\ n = Num z.
Proof.
  destruct v as [| |b|[|z]|s|r a|r ps], n as [|z']; simpl; try done.
  intros Heq. apply Z.eqb_eq in Heq as ->. by exists z'.
Qed.

Lemma strictEq_other_number (v : value) (n m : number) :
  strictEq v (VNum n) = true -> n <> m -> strictEq v (VNum m) = false.
Proof.
  intros Heq Hne. apply strictEq_number in Heq as (z & -> & ->).
  destruct m as [|z']; simpl; [done|].
  apply Z.eqb_neq. congruence.
Qed.

(** The lead an update of [currentLead] puts in the collection. *)
Lemma merged_lead_fields (nowISO : string) (currentLead : Lead) (leadUpdate : object) :
  NoDup currentLead.*1 -> NoDup leadUpdate.*1 ->
  let updatedLead :=
    spread (spread (spread [] currentLead) leadUpdate) [("updatedAt", VStr nowISO)] in
  lookupProp "updatedAt" updatedLead = VStr nowISO
  /\ (forall k v, (k, v) ∈ leadUpdate -> k <> "updatedAt" ->
      lookupProp k updatedLead = v)
  /\ (forall k, k ∉ leadUpdate.*1 -> k <> "updatedAt" ->
      lookupProp k updatedLead = lookupProp k currentLead).
Proof.
  intros Hlead Hupdate updatedLead. subst updatedLead.
  change (spread ?o [("updatedAt", VStr nowISO)])
    with (setProp "updatedAt" (VStr nowISO) o).
  split; [apply lookupProp_setProp_eq|]. split.
  - intros k v Hin Hne. rewrite (lookupProp_setProp_ne _ _ _ _ Hne).
    by apply lookupProp_spread_elem.
  - intros k Hnotin Hne. rewrite (lookupProp_setProp_ne _ _ _ _ Hne).
    rewrite (lookupProp_spread_notin _ _ _ Hnotin).
    by apply lookupProp_spread_nil.
Qed.

Lemma findLead_Some (id : number) (l : list Lead) (lead : Lead) :
  findLead id l = Some lead ->
  lead ∈ l /\ strictEq (lookupProp "id" lead) (VNum id) = true.
Proof.
  unfold findLead. induction l as [|x rest IH]; simpl; [done|].
  destruct (strictEq (lookupProp "id" x) (VNum id)) eqn:Hx.
  - intros [= <-]. split; [apply elem_of_cons; by left|done].
  - intros Hfind. destruct (IH Hfind) as [Hin Hid].
    split; [apply elem_of_cons; by right|done].
Qed.

Lemma findLead_replaced (id : number) (l : list Lead) (lead updatedLead : Lead) :
  findLead id l = Some lead ->
  strictEq (lookupProp "id" updatedLead) (VNum id) = true ->
  findLead id ((fun x => if strictEq (lookupProp "id" x) (VNum id)
                         then updatedLead else x) <$> l)
  = Some updatedLead.
Proof.
  unfold findLead. intros Hfind Hid.
  induction l as [|x rest IH]; simpl in *; [done|].
  destruct (strictEq (lookupProp "id" x) (VNum id)) eqn:Hx.
  - by rewrite Hid.
  - rewrite Hx. by apply IH.
Qed.

Lemma findLead_other (id other : number) (l : list Lead) (updatedLead : Lead) :
  strictEq (lookupProp "id" updatedLead) (VNum id) = true ->
  other <> id ->
  findLead other ((fun x => if strictEq (lookupProp "id" x) (VNum id)
                            then updatedLead else x) <$> l)
  = findLead other l.
Proof.
  unfold findLead. intros Hid Hother.
  induction l as [|x rest IH]; simpl; [done|].
  destruct (strictEq (lookupProp "id" x) (VNum id)) eqn:Hx.
  - rewrite (strictEq_other_number _ _ _ Hid), (strictEq_other_number _ _ _ Hx);
      [exact IH|congruence..].
  - destruct (strictEq (lookupProp "id" x) (VNum other)); [done|exact IH].
Qed.

(** The three ways [updateLead] ends for a lead that is found: nothing to
    do, a failure that is reported and rethrown, or a confirmed update. *)
Lemma updateLead_outcome stageOptions priorityOptions sourceOptions
    (nowISO : string) (id : number) (leadUpdate : object) (resp : Response)
    (s : AppState) (currentLead : Lead) :
  findLead id (leads (store s)) = Some currentLead ->
  let out := updateLead stageOptions priorityOptions sourceOptions nowISO id
               leadUpdate resp s in
  (hasChanges currentLead leadUpdate = false /\ out = (Ok (), s))
  \/ (hasChanges currentLead leadUpdate = true
      /\ exists e,
           out.1 = Throw e
           /\ leads (store out.2) = leads (store s)
           /\ globalLeadsCache (store out.2) = globalLeadsCache (store s)
           /\ requests out.2 = requests s
           /\ error (store out.2) = Some (errorMessage e))
  \/ (hasChanges currentLead leadUpdate = true
      /\ confirmed resp = true
      /\ out.1 = Ok ()
      /\ leads (store out.2)
         = ((fun lead =>
               if strictEq (lookupProp "id" lead) (VNum id)
               then spread (spread (spread [] currentLead) leadUpdate)
                      [("updatedAt", VStr nowISO)]
               else lead) <$> leads (store s))
      /\ globalLeadsCache (store out.2) = emptyCache
      /\ activeRequests (requests out.2) = ∅).
Proof.
  intros Hfind out. subst out. unfold updateLead, updateLeadRequest.
  rewrite Hfind.
  destruct (hasChanges currentLead leadUpdate); simpl; [|by left].
  right.
  destruct (buildApiUpdate _ _ _ id currentLead leadUpdate) as [apiUpdate|e].
  2:{ left. split; [done|]. by exists e. }
  unfold updateLeadReply.
  destruct resp as [e|ok [data|e]]; simpl.
  - left. split; [done|]. by exists e.
  - destruct (get data "success") as [success|e] eqn:Hsuccess; simpl.
    2:{ left. split; [done|]. by exists e. }
    destruct (truthy success) eqn:Htruthy; simpl.
    + right. split; [done|]. split; [done|]. split; [done|].
      unfold invalidateLeadsCache; simpl.
      by destruct (isActive id (store s)).
    + left. split; [done|].
      destruct (get data "message") as [message|e]; simpl; by eexists.
  - left. split; [done|]. by exists e.
Qed.

(** X10. Without the server's confirmation [updateLead] changes neither
    the leads nor the cache slot nor the requests in flight, whatever the
    update and whether or not the lead is held. It then either returns
    with the state exactly as it was (there was nothing to send) or throws
    with the message recorded as the error; it never returns normally
    after a request that was not confirmed. *)
Theorem unconfirmed_update_changes_nothing stageOptions priorityOptions sourceOptions
    (nowISO : string) (id : number) (leadUpdate : object) (resp : Response)
    (s : AppState) :
  confirmed resp = false ->
  let out := updateLead stageOptions priorityOptions sourceOptions nowISO id
               leadUpdate resp s in
  leads (store out.2) = leads (store s)
  /\ globalLeadsCache (store out.2) = globalLeadsCache (store s)
  /\ requests out.2 = requests s
  /\ match out.1 with
     | Ok _ => out.2 = s
     | Throw e => error (store out.2) = Some (errorMessage e)
     end.
Proof.
  intros Hresp out.
  destruct (findLead id (leads (store s))) as [currentLead|] eqn:Hfind.
  - destruct (updateLead_outcome stageOptions priorityOptions sourceOptions
                nowISO id leadUpdate resp s currentLead Hfind)
      as [[_ Hout]|[(_ & e & Hthrow & Hleads & Hcache & Hrequests & Herror)
                   |(_ & Hconfirmed & _)]].
    + subst out. by rewrite Hout.
    + subst out. by rewrite Hthrow.
    + congruence.
  - subst out. unfold updateLead, updateLeadRequest. by rewrite Hfind.
Qed.

Lemma unconfirmed_update_changes_nothing_witness :
  let s := provider [] [] (storedPage noParams [] [leadSeven] 0) [] in
  let out := updateLead [] [] [] "2024-05-01T10:00:00.000Z" (Num 7)
               [("name", VStr "Asha K")]
               (Replied true (Ok (VObj 0 [("success", VBool false)]))) s in
  leads (store out.2) = leads (store s)
  /\ globalLeadsCache (store out.2) = globalLeadsCache (store s)
  /\ requests out.2 = requests s
  /\ match out.1 with
     | Ok _ => out.2 = s
     | Throw e => error (store out.2) = Some (errorMessage e)
     end.
Proof.
  apply (unconfirmed_update_changes_nothing [] [] [] "2024-05-01T10:00:00.000Z"
           (Num 7) [("name", VStr "Asha K")]
           (Replied true (Ok (VObj 0 [("success", VBool false)])))).
  reflexivity.
Defined.

(** X11. A confirmed update is found again under the same id, with every
    field of the update at the value it was given, [updatedAt] at the time
    of the update and every other field as it was; the leads with another
    id are found as before; the cache slot is emptied and no request key
    stays registered. The lead and the update are objects (no key twice)
    and the update does not carry an [id]. *)
Theorem confirmed_update_merges stageOptions priorityOptions sourceOptions
    (nowISO : string) (id : number) (leadUpdate : object) (resp : Response)
    (s : AppState) (currentLead : Lead) :
  findLead id (leads (store s)) = Some currentLead ->
  NoDup currentLead.*1 -> NoDup leadUpdate.*1 -> "id" ∉ leadUpdate.*1 ->
  hasChanges currentLead leadUpdate = true ->
  let out := updateLead stageOptions priorityOptions sourceOptions nowISO id
               leadUpdate resp s in
  out.1 = Ok () ->
  (exists updatedLead,
     findLead id (leads (store out.2)) = Some updatedLead
     /\ lookupProp "updatedAt" updatedLead = VStr nowISO
     /\ (forall k v, (k, v) ∈ leadUpdate -> k <> "updatedAt" ->
         lookupProp k updatedLead = v)
     /\ (forall k, k ∉ leadUpdate.*1 -> k <> "updatedAt" ->
         lookupProp k updatedLead = lookupProp k currentLead))
  /\ (forall other, other <> id ->
      findLead other (leads (store out.2)) = findLead other (leads (store s)))
  /\ globalLeadsCache (store out.2) = emptyCache
  /\ activeRequests (requests out.2) = ∅.
Proof.
  intros Hfind Hlead Hupdate Hid Hchanges out Hok.
  destruct (updateLead_outcome stageOptions priorityOptions sourceOptions
              nowISO id leadUpdate resp s currentLead Hfind)
    as [[Hsame _]|[(_ & e & Hthrow & _)|(_ & _ & _ & Hleads & Hcache & Hrequests)]].
  { congruence. }
  { subst out. rewrite Hthrow in Hok. discriminate. }
  fold out in Hleads, Hcache, Hrequests.
  destruct (merged_lead_fields nowISO currentLead leadUpdate Hlead Hupdate)
    as (Hstamp & Hgiven & Hkept).
  destruct (findLead_Some _ _ _ Hfind) as [_ Hmatch].
  set (updatedLead :=
         spread (spread (spread [] currentLead) leadUpdate)
           [("updatedAt", VStr nowISO)]) in *.
  assert (strictEq (lookupProp "id" updatedLead) (VNum id) = true) as Hkeeps.
  { rewrite Hkept; [done|done|discriminate]. }
  rewrite Hleads. split; [|split; [|done]].
  - exists updatedLead. split; [|done]. by apply findLead_replaced with currentLead.
  - intros other Hother. by apply findLead_other.
Qed.

Lemma confirmed_update_merges_witness :
  let s := provider [] [] (storedPage noParams [] [leadSeven] 0) [] in
  let out := updateLead [] [] [] "2024-05-01T10:00:00.000Z" (Num 7)
               [("name", VStr "Asha K"); ("budget", VNum (Num 75))]
               (Replied true (Ok (VObj 0 [("success", VBool true)]))) s in
  (exists updatedLead,
     findLead (Num 7) (leads (store out.2)) = Some updatedLead
     /\ lookupProp "updatedAt" updatedLead = VStr "2024-05-01T10:00:00.000Z"
     /\ (forall k v, (k, v) ∈ [("name", VStr "Asha K"); ("budget", VNum (Num 75))] ->
         k <> "updatedAt" -> lookupProp k updatedLead = v)
     /\ (forall k, k ∉ [("name", VStr "Asha K"); ("budget", VNum (Num 75))].*1 ->
         k <> "updatedAt" -> lookupProp k updatedLead = lookupProp k leadSeven))
  /\ (forall other, other <> Num 7 ->
      findLead other (leads (store out.2)) = findLead other (leads (store s)))
  /\ globalLeadsCache (store out.2) = emptyCache
  /\ activeRequests (requests out.2) = ∅.
Proof.
  apply (confirmed_update_merges [] [] [] "2024-05-01T10:00:00.000Z" (Num 7)
           [("name", VStr "Asha K"); ("budget", VNum (Num 75))]
           (Replied true (Ok (VObj 0 [("success", VBool true)])))
           (provider [] [] (storedPage noParams [] [leadSeven] 0) []) leadSeven).
  - reflexivity.
  - apply (bool_decide_unpack _). vm_compute. exact I.
  - apply (bool_decide_unpack _). vm_compute. exact I.
  - apply (bool_decide_unpack _). vm_compute. exact I.
  - reflexivity.
  - reflexivity.
Defined.

(** X12. An update that was confirmed is not sent a second time: when
    [updateLead] has returned normally, the same call on the state it left
    finds nothing changed and returns with that state as it is. No value
    of the update is [NaN], and the update carries neither [id] nor
    [updatedAt]. *)
Theorem update_applied_twice stageOptions priorityOptions sourceOptions
    (nowISO later : string) (id : number) (leadUpdate : object)
    (resp again : Response) (s : AppState) (currentLead : Lead) :
  findLead id (leads (store s)) = Some currentLead ->
  NoDup currentLead.*1 -> NoDup leadUpdate.*1 ->
  "id" ∉ leadUpdate.*1 -> "updatedAt" ∉ leadUpdate.*1 ->
  Forall (fun entry => entry.2 <> VNum NaN) leadUpdate ->
  let out := updateLead stageOptions priorityOptions sourceOptions nowISO id
               leadUpdate resp s in
  out.1 = Ok () ->
  updateLead stageOptions priorityOptions sourceOptions later id leadUpdate
    again out.2 = (Ok (), out.2).
Proof.
  intros Hfind Hlead Hupdate Hid Hstamp Hnan out Hok.
  destruct (updateLead_outcome stageOptions priorityOptions sourceOptions
              nowISO id leadUpdate resp s currentLead Hfind)
    as [[Hsame Hout]|[(_ & e & Hthrow & _)|(_ & _ & _ & Hleads & _)]].
  { fold out in Hout. rewrite Hout; simpl.
    unfold updateLead, updateLeadRequest. by rewrite Hfind, Hsame. }
  { subst out. rewrite Hthrow in Hok. discriminate. }
  fold out in Hleads.
  destruct (merged_lead_fields nowISO currentLead leadUpdate Hlead Hupdate)
    as (_ & Hgiven & Hkept).
  destruct (findLead_Some _ _ _ Hfind) as [_ Hmatch].
  set (updatedLead :=
         spread (spread (spread [] currentLead) leadUpdate)
           [("updatedAt", VStr nowISO)]) in *.
  assert (strictEq (lookupProp "id" updatedLead) (VNum id) = true) as Hkeeps.
  { rewrite Hkept; [done|done|discriminate]. }
  assert (findLead id (leads (store out.2)) = Some updatedLead) as Hfound.
  { rewrite Hleads. by apply findLead_replaced with currentLead. }
  assert (hasChanges updatedLead leadUpdate = false) as Hnone.
  { apply hasChanges_unchanged. apply Forall_forall. intros [k v] Hin.
    assert (lookupProp k updatedLead = v) as Hv.
    { apply Hgiven; [done|]. intros ->. apply Hstamp.
      apply list_elem_of_fmap. by exists ("updatedAt", v). }
    unfold unchangedField; simpl. rewrite Hv.
    rewrite Forall_forall in Hnan. specialize (Hnan _ Hin). simpl in Hnan.
    destruct v; try reflexivity; exact (strictEq_refl _ Hnan). }
  unfold updateLead, updateLeadRequest. by rewrite Hfound, Hnone.
Qed.

Lemma update_applied_twice_witness :
  let s := provider [] [] (storedPage noParams [] [leadSeven] 0) [] in
  let out := updateLead [] [] [] "2024-05-01T10:00:00.000Z" (Num 7)
               [("name", VStr "Asha K"); ("labels", VArr 9 [VStr "hot"])]
               (Replied true (Ok (VObj 0 [("success", VBool true)]))) s in
  updateLead [] [] [] "2024-05-01T10:05:00.000Z" (Num 7)
    [("name", VStr "Asha K"); ("labels", VArr 9 [VStr "hot"])]
    (Rejected (TypeError "Failed to fetch")) out.2 = (Ok (), out.2).
Proof.
  apply (update_applied_twice [] [] [] "2024-05-01T10:00:00.000Z"
           "2024-05-01T10:05:00.000Z" (Num 7)
           [("name", VStr "Asha K"); ("labels", VArr 9 [VStr "hot"])]
           (Replied true (Ok (VObj 0 [("success", VBool true)])))
           (Rejected (TypeError "Failed to fetch"))
           (provider [] [] (storedPage noParams [] [leadSeven] 0) []) leadSeven).
  - reflexivity.
  - apply (bool_decide_unpack _). vm_compute. exact I.
  - apply (bool_decide_unpack _). vm_compute. exact I.
  - apply (bool_decide_unpack _). vm_compute. exact I.
  - apply (bool_decide_unpack _). vm_compute. exact I.
  - repeat constructor; discriminate.
  - reflexivity.
Defined.

(** X13. [NaN] is never equal to what is stored: an update with a field at
    [NaN] (what the budget input of the lead's page passes when it is left
    empty) is never taken for unchanged, even when the stored value is
    [NaN] too. For a lead that is found [updateLead] then never returns
    silently: it sends the PUT or reports a failure. *)
Theorem nan_field_is_never_unchanged stageOptions priorityOptions sourceOptions
    (id : number) (leadUpdate : object) (s : AppState) (currentLead : Lead)
    (k : string) :
  findLead id (leads (store s)) = Some currentLead ->
  (k, VNum NaN) ∈ leadUpdate ->
  let out := updateLeadRequest stageOptions priorityOptions sourceOptions id
               leadUpdate s in
  hasChanges currentLead leadUpdate = true
  /\ out.1 <> Settled (Ok ())
  /\ exists effect,
       effects (store out.2) = (effects (store s) ++ [effect])%list
       /\ (isFetch effect = true \/ exists message, effect = ToastError message).
Proof.
  intros Hfind Hin out.
  assert (hasChanges currentLead leadUpdate = true) as Hchanges.
  { unfold hasChanges. apply existsb_exists. exists (k, VNum NaN).
    split; [by apply list_elem_of_In|]. simpl.
    by destruct (lookupProp k currentLead) as [| | |[|z]| | |]. }
  split; [done|].
  subst out. unfold updateLeadRequest. rewrite Hfind, Hchanges; simpl.
  destruct (buildApiUpdate _ _ _ id currentLead leadUpdate) as [apiUpdate|e]; simpl.
  - split; [done|]. eexists. split; [reflexivity|]. by left.
  - split; [done|]. eexists. split; [reflexivity|]. right. by eexists.
Qed.

Lemma nan_field_is_never_unchanged_witness :
  let s := provider [] [] (storedPage noParams [] [leadSeven] 0) [] in
  let out := updateLeadRequest [] [] [] (Num 7) [("budget", VNum NaN)] s in
  hasChanges leadSeven [("budget", VNum NaN)] = true
  /\ out.1 <> Settled (Ok ())
  /\ exists effect,
       effects (store out.2) = (effects (store s) ++ [effect])%list
       /\ (isFetch effect = true \/ exists message, effect = ToastError message).
Proof.
  apply (nan_field_is_never_unchanged [] [] [] (Num 7) [("budget", VNum NaN)]
           (provider [] [] (storedPage noParams [] [leadSeven] 0) []) leadSeven
           "budget").
  - reflexivity.
  - constructor.
Defined.

(** ** Deleting, then reading *)

Lemma deleteLeadReply_confirmed (id : number) (rendered : Store) (resp : Response)
    (s : AppState) :
  confirmed resp = true ->
  let s' := deleteLeadReply id rendered resp s in
  leads (store s')
  = List.filter (fun lead => negb (strictEq (lookupProp "id" lead) (VNum id)))
      (leads rendered)
  /\ todos (store s')
     = List.filter (fun todo => negb (strictEq (lookupProp "leadId" todo) (VNum id)))
         (todos rendered).
Proof.
  unfold confirmed, deleteLeadReply.
  destruct resp as [e|ok [data|e]]; simpl; try done.
  destruct (get data "success") as [success|e]; simpl; [|done].
  intros ->; simpl. by destruct (isActive id rendered).
Qed.

Lemma find_filter_none {A : Type} (p : A -> bool) (l : list A) :
  find p (List.filter (fun x => negb (p x)) l) = None.
Proof.
  induction l as [|x rest IH]; simpl; [done|].
  destruct (p x) eqn:Hx; simpl; [done|]. by rewrite Hx.
Qed.

Lemma find_filter_other {A : Type} (p q : A -> bool) (l : list A) :
  (forall x, p x = true -> q x = false) ->
  find p (List.filter (fun x => negb (q x)) l) = find p l.
Proof.
  intros Hpq. induction l as [|x rest IH]; simpl; [done|].
  destruct (p x) eqn:Hx.
  - rewrite (Hpq _ Hx); simpl. by rewrite Hx.
  - destruct (q x); simpl; [done|]. by rewrite Hx.
Qed.

Lemma filter_filter_none {A : Type} (p : A -> bool) (l : list A) :
  List.filter p (List.filter (fun x => negb (p x)) l) = [].
Proof.
  induction l as [|x rest IH]; simpl; [done|].
  destruct (p x) eqn:Hx; simpl; [done|]. by rewrite Hx.
Qed.

Lemma filter_filter_other {A : Type} (p q : A -> bool) (l : list A) :
  (forall x, p x = true -> q x = false) ->
  List.filter p (List.filter (fun x => negb (q x)) l) = List.filter p l.
Proof.
  intros Hpq. induction l as [|x rest IH]; simpl; [done|].
  destruct (p x) eqn:Hx.
  - rewrite (Hpq _ Hx); simpl. by rewrite Hx, IH.
  - destruct (q x); simpl; [done|]. by rewrite Hx.
Qed.

(** X14. After a confirmed [deleteLead(id)], [getLeadById(id)] finds
    nothing and [getTodosByLeadId(id)] is empty, while for every other id
    both give what they gave before: no other lead disappears and no other
    lead loses a task. *)
Theorem deleted_lead_is_gone (id : number) (resp : Response) (s : AppState) :
  confirmed resp = true ->
  let s' := deleteLead id resp s in
  getLeadById id (store s') = None
  /\ getTodosByLeadId id (store s') = []
  /\ forall other, other <> id ->
       getLeadById other (store s') = getLeadById other (store s)
       /\ getTodosByLeadId other (store s') = getTodosByLeadId other (store s).
Proof.
  intros Hconfirmed s'.
  destruct (deleteLeadReply_confirmed id (store s) resp (deleteLeadRequest id s)
              Hconfirmed) as [Hleads Htodos].
  fold (deleteLead id resp s) in Hleads, Htodos. fold s' in Hleads, Htodos.
  unfold getLeadById, getTodosByLeadId, findLead. rewrite Hleads, Htodos.
  split; [apply find_filter_none|]. split; [apply filter_filter_none|].
  intros other Hother. split.
  - apply find_filter_other. intros lead Hlead.
    by apply strictEq_other_number with other.
  - apply filter_filter_other. intros todo Htodo.
    by apply strictEq_other_number with other.
Qed.

Lemma deleted_lead_is_gone_witness :
  let s := provider [] [] emptyCache [] in
  let s' := deleteLead (Num 7)
              (Replied true (Ok (VObj 0 [("success", VBool true)]))) s in
  getLeadById (Num 7) (store s') = None
  /\ getTodosByLeadId (Num 7) (store s') = []
  /\ forall other, other <> Num 7 ->
       getLeadById other (store s') = getLeadById other (store s)
       /\ getTodosByLeadId other (store s') = getTodosByLeadId other (store s).
Proof.
  apply (deleted_lead_is_gone (Num 7)
           (Replied true (Ok (VObj 0 [("success", VBool true)])))
           (provider [] [] emptyCache [])).
  reflexivity.
Defined.

(** ** The phone input *)

Lemma removeNonDigits_digits (s : string) : digitsOnly (removeNonDigits s) = true.
Proof.
  induction s as [|c s IH]; simpl; [done|].
  destruct (isDigit c) eqn:Hc; simpl; [by rewrite Hc|done].
Qed.

Lemma removeNonDigits_fixed (d : string) :
  digitsOnly d = true -> removeNonDigits d = d.
Proof.
  induction d as [|c d IH]; simpl; [done|].
  intros Hd. apply andb_true_iff in Hd as [Hc Hd]. by rewrite Hc, IH.
Qed.

Lemma sliceTo_digits (n : nat) (d : string) :
  digitsOnly d = true -> digitsOnly (sliceTo n d) = true.
Proof.
  revert d. induction n as [|n IH]; intros [|c d]; simpl; try done.
  intros Hd. apply andb_true_iff in Hd as [Hc Hd]. by rewrite Hc, IH.
Qed.

Lemma sliceTo_length (n : nat) (s : string) :
  (String.length (sliceTo n s) <= n)%nat.
Proof.
  revert s. induction n as [|n IH]; intros [|c s]; simpl; try lia.
  specialize (IH s). lia.
Qed.

Lemma sliceTo_fixed (n : nat) (s : string) :
  (String.length s <= n)%nat -> sliceTo n s = s.
Proof.
  revert s. induction n as [|n IH]; intros [|c s]; simpl; try done; try lia.
  intros Hlen. rewrite IH; [done|lia].
Qed.

(** X15. Whatever is typed into the phone input, [handlePhoneChange]
    passes on at most 15 digits, with a plus sign in front exactly when the
    text started with one; and it leaves a text it has produced as it is. *)
Theorem phone_is_normalised (input : string) :
  let out := handlePhoneChange input in
  exists digits,
    digitsOnly digits = true
    /\ (String.length digits <= 15)%nat
    /\ out = (match input with
              | String "+" _ => String "+" digits
              | _ => digits
              end)
    /\ handlePhoneChange out = out.
Proof.
  intros out. subst out. unfold handlePhoneChange.
  set (digits := sliceTo 15 (removeNonDigits input)).
  assert (digitsOnly digits = true) as Hdigits
    by apply sliceTo_digits, removeNonDigits_digits.
  assert (String.length digits <= 15)%nat as Hlength by apply sliceTo_length.
  assert (sliceTo 15 (removeNonDigits digits) = digits) as Hfixed.
  { by rewrite removeNonDigits_fixed, sliceTo_fixed. }
  assert (match digits with String "+" _ => true | _ => false end = false) as Hplus.
  { destruct digits as [|c rest]; [done|]. simpl in Hdigits.
    apply andb_true_iff in Hdigits as [Hc _].
    destruct c as [[] [] [] [] [] [] [] []]; try discriminate; reflexivity. }
  exists digits. split; [done|]. split; [done|].
  set (hasPlus := match input with String "+" _ => true | _ => false end).
  assert (match input with String "+" _ => String "+" digits | _ => digits end
          = if hasPlus then String "+" digits else digits) as ->.
  { subst hasPlus. destruct input as [|c rest]; [done|].
    destruct c as [[] [] [] [] [] [] [] []]; reflexivity. }
  split; [done|].
  destruct hasPlus.
  - change (removeNonDigits (String "+" digits)) with (removeNonDigits digits).
    by rewrite Hfixed.
  - by rewrite Hplus, Hfixed.
Qed.

(** ** Removing a filter by position *)

Lemma spliceOne_inside {A : Type} (index : nat) (l : list A) :
  (index < length l)%nat ->
  length (spliceOne (Z.of_nat index) l) = Nat.pred (length l)
  /\ forall i, spliceOne (Z.of_nat index) l !! i
               = if (i <? index)%nat then l !! i else l !! S i.
Proof.
  intros Hlt. unfold spliceOne.
  assert ((Z.of_nat index <? 0) = false) as -> by lia.
  rewrite Z.min_l, Nat2Z.id by lia.
  split.
  - rewrite length_app, length_take, length_drop. lia.
  - intros i. destruct (i <? index)%nat eqn:Hi.
    + apply Nat.ltb_lt in Hi.
      rewrite lookup_app_l by (rewrite length_take; lia).
      by apply lookup_take_lt.
    + apply Nat.ltb_ge in Hi.
      rewrite lookup_app_r by (rewrite length_take; lia).
      rewrite length_take, lookup_drop. f_equal. lia.
Qed.

Lemma spliceOne_beyond {A : Type} (index : Z) (l : list A) :
  Z.of_nat (length l) <= index -> spliceOne index l = l.
Proof.
  intros Hge. unfold spliceOne.
  assert ((index <? 0) = false) as -> by lia.
  rewrite Z.min_r, Nat2Z.id by lia.
  rewrite take_ge, drop_ge by lia. apply app_nil_r.
Qed.

Lemma spliceOne_from_end {A : Type} (index : Z) (l : list A) :
  index < 0 ->
  spliceOne index l = spliceOne (Z.max (Z.of_nat (length l) + index) 0) l.
Proof.
  intros Hneg. unfold spliceOne.
  assert ((index <? 0) = true) as -> by lia.
  assert ((Z.max (Z.of_nat (length l) + index) 0 <? 0) = false) as -> by lia.
  by rewrite Z.min_l by lia.
Qed.

(** X16. [removeLeadFilter(index)] by position. An index inside the list
    removes that one filter and keeps the others in order; an index at or
    beyond the end removes nothing; a negative index counts from the end
    (and from the start once it reaches further back than the list is
    long). The array that was held is copied, not changed: read at its
    address it is as before. Leads and cache slot are untouched. *)
Theorem removeLeadFilter_by_position (index : Z) (s : AppState) :
  leadFilters (store s) <> nextRef (store s) ->
  let held := currentLeadFilters (store s) in
  let size := Z.of_nat (length held) in
  let s' := removeLeadFilter index s in
  let held' := currentLeadFilters (store s') in
  (0 <= index < size ->
   length held' = Nat.pred (length held)
   /\ forall i, held' !! i
                = if (i <? Z.to_nat index)%nat then held !! i else held !! S i)
  /\ (size <= index -> held' = held)
  /\ (index < 0 ->
      held' = currentLeadFilters
                (store (removeLeadFilter (Z.max (size + index) 0) s)))
  /\ readArray (leadFilters (store s)) (store s') = held
  /\ leads (store s') = leads (store s)
  /\ globalLeadsCache (store s') = globalLeadsCache (store s).
Proof.
  intros Hfresh held size s' held'.
  assert (forall i, currentLeadFilters (store (removeLeadFilter i s))
                    = spliceOne i held) as Hremoved.
  { intros i. unfold removeLeadFilter; simpl.
    apply currentLeadFilters_setLeadFiltersState. }
  subst held'. subst s'. rewrite !Hremoved.
  split; [|split; [|split; [|split; [|done]]]].
  - intros Hinside.
    assert (Z.to_nat index < length held)%nat as Hlt by (subst size; lia).
    destruct (spliceOne_inside (Z.to_nat index) held Hlt) as [Hlength Hlookup].
    rewrite Z2Nat.id in Hlength, Hlookup by lia. done.
  - intros Hbeyond. by apply spliceOne_beyond.
  - intros Hneg. by apply spliceOne_from_end.
  - unfold removeLeadFilter, readArray, setLeadFiltersState; simpl.
    by rewrite lookup_insert_ne.
Qed.

Lemma removeLeadFilter_by_position_witness :
  let s := provider [stageFilter; priorityFilter; minBudget] [] emptyCache [] in
  let held := currentLeadFilters (store s) in
  let size := Z.of_nat (length held) in
  let s' := removeLeadFilter (-1) s in
  let held' := currentLeadFilters (store s') in
  (0 <= -1 < size ->
   length held' = Nat.pred (length held)
   /\ forall i, held' !! i
                = if (i <? Z.to_nat (-1))%nat then held !! i else held !! S i)
  /\ (size <= -1 -> held' = held)
  /\ (-1 < 0 ->
      held' = currentLeadFilters
                (store (removeLeadFilter (Z.max (size + -1) 0) s)))
  /\ readArray (leadFilters (store s)) (store s') = held
  /\ leads (store s') = leads (store s)
  /\ globalLeadsCache (store s') = globalLeadsCache (store s).
Proof.
  apply (removeLeadFilter_by_position (-1)
           (provider [stageFilter; priorityFilter; minBudget] [] emptyCache [])).
  simpl. lia.
Defined.

(** ** Tasks *)

Lemma parseIntString_numberToString (n : number) :
  parseIntString (numberToString n) = n.
Proof. destruct n as [|z]; [reflexivity|]. apply parseIntString_pretty. Qed.

Lemma split_join (l : list string) :
  Forall (fun x => commaFree x = true) l -> l <> [""] ->
  (if String.eqb (join "," l) "" then [] else split "," (join "," l)) = l.
Proof.
  intros Hfree Hsingle. destruct l as [|x rest]; [reflexivity|].
  unfold split. rewrite (splitAcc_join x rest "" Hfree).
  change ("" +:+ x) with x.
  destruct (String.eqb (join "," (x :: rest)) "") eqn:Hempty; [|done].
  apply String.eqb_eq in Hempty.
  destruct rest as [|y rest].
  - simpl in Hempty. by subst x.
  - rewrite join_cons in Hempty. destruct x; discriminate.
Qed.

(** X17. What [addTodo] sends, read back by the transformer of
    [fetchTodos]. The lead (a safe integer or [NaN]), the participants (no
    comma inside a name, and not the single empty name), the description
    and the time come back as they were. The type comes back as Activity
    if it was Activity and as Todo otherwise; the status as Completed if
    it was Completed and as Pending otherwise. *)
Theorem added_task_reads_back (stringIsOne : string -> bool) (ref r a : nat)
    (todo : object) (leadId : number) (participants : list string) :
  lookupProp "leadId" todo = VNum leadId ->
  represented leadId = true ->
  lookupProp "participants" todo = VArr a (VStr <$> participants) ->
  Forall (fun name => commaFree name = true) participants ->
  participants <> [""] ->
  exists sent,
    AddTodo.apiTodo todo = Ok sent
    /\ forall props,
         (forall k, k ∈ ["contact_id"; "type"; "note"; "response"; "completed";
                         "time"; "assigned_to"] ->
                    lookupProp k props = lookupProp k sent) ->
         exists back,
           transformTask stringIsOne ref (VObj r props) = Ok back
           /\ lookupProp "leadId" back = VNum leadId
           /\ lookupProp "participants" back = VArr ref (VStr <$> participants)
           /\ lookupProp "type" back
              = VStr (if strictEq (lookupProp "type" todo) (VStr "Activity")
                      then "Activity" else "Todo")
           /\ lookupProp "status" back
              = VStr (if strictEq (lookupProp "status" todo) (VStr "Completed")
                      then "Completed" else "Pending")
           /\ lookupProp "description" back
              = or_else (lookupProp "description" todo) (VStr "")
           /\ lookupProp "dateTime" back = lookupProp "dateTime" todo.
Proof.
  intros Hlead _ Hparticipants Hfree Hsingle.
  unfold AddTodo.apiTodo. rewrite Hlead, Hparticipants.
  unfold callToString, joinComma. rewrite toString_labels.
  eexists. split; [reflexivity|].
  intros props Hprops.
  assert (lookupProp "contact_id" props = VStr (numberToString leadId)) as Hcontact.
  { rewrite Hprops; [reflexivity|set_solver]. }
  assert (lookupProp "type" props
          = VStr (if strictEq (lookupProp "type" todo) (VStr "Activity")
                  then "activity" else "task")) as Htype.
  { rewrite Hprops; [reflexivity|set_solver]. }
  assert (lookupProp "note" props = lookupProp "description" todo) as Hnote.
  { rewrite Hprops; [reflexivity|set_solver]. }
  assert (lookupProp "completed" props
          = VNum (Num (if strictEq (lookupProp "status" todo) (VStr "Completed")
                       then 1 else 0))) as Hcompleted.
  { rewrite Hprops; [reflexivity|set_solver]. }
  assert (lookupProp "time" props = lookupProp "dateTime" todo) as Htime.
  { rewrite Hprops; [reflexivity|set_solver]. }
  assert (lookupProp "assigned_to" props = VStr (join "," participants)) as Hassigned.
  { rewrite Hprops; [reflexivity|set_solver]. }
  unfold transformTask; simpl.
  rewrite Hcontact, Htype, Hnote, Hcompleted, Htime, Hassigned; simpl.
  generalize (split_join participants Hfree Hsingle).
  destruct (String.eqb (join "," participants) ""); intros Hsplit; simpl;
    (eexists; split; [reflexivity|]); simpl;
    unfold parseInt; simpl; rewrite parseIntString_numberToString;
    (split; [reflexivity|]); (split; [first [by rewrite Hsplit|by rewrite <- Hsplit]|]);
    (split; [by destruct (strictEq (lookupProp "type" todo) (VStr "Activity"))|]);
    (split; [by destruct (strictEq (lookupProp "status" todo) (VStr "Completed"))|]);
    done.
Qed.

Lemma added_task_reads_back_witness :
  let todo := [("leadId", VNum (Num 7)); ("type", VStr "Follow Up");
               ("description", VStr "Call back"); ("status", VStr "Cancelled");
               ("dateTime", VStr "2024-05-01T10:00"); 
               ("participants", VArr 4 (VStr <$> ["Ravi"; "Meena"]))] in
  exists sent,
    AddTodo.apiTodo todo = Ok sent
    /\ forall props,
         (forall k, k ∈ ["contact_id"; "type"; "note"; "response"; "completed";
                         "time"; "assigned_to"] ->
                    lookupProp k props = lookupProp k sent) ->
         exists back,
           transformTask (fun _ => false) 5 (VObj 6 props) = Ok back
           /\ lookupProp "leadId" back = VNum (Num 7)
           /\ lookupProp "participants" back = VArr 5 (VStr <$> ["Ravi"; "Meena"])
           /\ lookupProp "type" back
              = VStr (if strictEq (lookupProp "type" todo) (VStr "Activity")
                      then "Activity" else "Todo")
           /\ lookupProp "status" back
              = VStr (if strictEq (lookupProp "status" todo) (VStr "Completed")
                      then "Completed" else "Pending")
           /\ lookupProp "description" back
              = or_else (lookupProp "description" todo) (VStr "")
           /\ lookupProp "dateTime" back = lookupProp "dateTime" todo.
Proof.
  intros todo.
  apply (added_task_reads_back (fun _ => false) 5 6 4 todo (Num 7) ["Ravi"; "Meena"]).
  - reflexivity.
  - reflexivity.
  - reflexivity.
  - repeat constructor.
  - discriminate.
Defined.

(** X18. However the request of [fetchTodos] ends, the loading flag it
    raised is lowered again, and the error, the leads and the cache slot
    are not written: a failure is only logged and shown. The tasks are
    either left as they were or replaced by the transformed [data] of a
    response that is ok, parses and reports success; a response that
    reports failure changes nothing else and shows nothing. *)
Theorem fetchTodos_settles (stringIsOne : string -> bool)
    (page perPage : number) (sortOrder : SortOrder) (resp : Response) (st : Store) :
  let st1 := todosRequestFn page perPage sortOrder st in
  let st2 := todosResponse stringIsOne resp st1 in
  isLoading st1 = true
  /\ isLoading st2 = false
  /\ error st2 = error st
  /\ leads st2 = leads st
  /\ globalLeadsCache st2 = globalLeadsCache st
  /\ (todos st2 = todos st
      \/ exists data success r items,
           resp = Replied true (Ok data)
           /\ get data "success" = Ok success /\ truthy success = true
           /\ get data "data" = Ok (VArr r items)
           /\ transformTasks stringIsOne (nextRef st) items = Ok (todos st2))
  /\ (forall ok data success,
        resp = Replied ok (Ok data) -> get data "success" = Ok success ->
        truthy success = false -> ok = true ->
        todos st2 = todos st /\ effects st2 = effects st1).
Proof.
  intros st1 st2. subst st2 st1. unfold todosResponse, todosReply, todosRequestFn.
  split; [reflexivity|].
  assert (forall (P : Prop) (x y : list Todo), x = y -> x = y \/ P) as Hleft
    by (intros; by left).
  destruct resp as [e|[|] [data|e]]; simpl;
    [| destruct (get data "success") as [success|e] eqn:Hsuccess; simpl;
       [ destruct (truthy success) eqn:Htruthy; simpl;
         [ destruct (get data "data") as [items|e] eqn:Hitems; simpl;
           [ destruct (mapTasks stringIsOne (nextRef st) items) as [transformed|e]
               eqn:Hmap; simpl |] |] |] |..];
    repeat match goal with |- _ /\ _ => split end;
    try reflexivity;
    try (intros ok' data' success' Hresp Hget Hfalsy Hok; try discriminate;
         injection Hresp as Hok' Hdata; subst; try discriminate;
         try congruence; by split);
    try (apply Hleft; reflexivity).
  right. destruct items as [| | | | |r elems|r ps]; try discriminate.
  exists data, success, r, elems. by repeat split.
Qed.

(** ** A single lead *)

(** X19. [fetchSingleLead] only reads. A lead that is held is handed back
    as it is, with no request and the state untouched. Otherwise one GET
    for the id goes out and, whatever comes back, the leads, the tasks,
    the cache slot, the requests in flight, the selection, the error and
    the loading flag stay as they were: the lead that was fetched is not
    kept, so the next call for the same id asks again. *)
Theorem fetchSingleLead_only_reads
    (JSON_parse : string -> option value) (stringIsOne stringIsPositive : string -> bool)
    (stageOptions priorityOptions : list Options.Option)
    (id : number) (resp : Response) (s : AppState) :
  let out := fetchSingleLead JSON_parse stringIsOne stringIsPositive stageOptions
               priorityOptions id resp s in
  match findLead id (leads (store s)) with
  | Some existingLead => out = (Some existingLead, s)
  | None =>
      requestsIssued (store out.2)
      = (requestsIssued (store s)
         ++ [Fetch "GET" FETCH_API_URL
               [("resource", "contacts"); ("id", numberToString id)] None])%list
      /\ leads (store out.2) = leads (store s)
      /\ todos (store out.2) = todos (store s)
      /\ globalLeadsCache (store out.2) = globalLeadsCache (store s)
      /\ requests out.2 = requests s
      /\ activeLeadId (store out.2) = activeLeadId (store s)
      /\ error (store out.2) = error (store s)
      /\ isLoading (store out.2) = isLoading (store s)
      /\ (fetchSingleLeadRequest id out.2).1 = Requested
  end.
Proof.
  intros out. subst out. unfold fetchSingleLead, fetchSingleLeadRequest.
  destruct (findLead id (leads (store s))) as [existingLead|] eqn:Hfind; [done|].
  unfold fetchSingleLeadReply.
  destruct (singleLeadReply _ _ _ _ _ _ _) as [[lead|]|e]; simpl;
    rewrite ?Hfind; repeat split;
    try reflexivity;
    try apply requestsIssued_emit_fetch.
  rewrite requestsIssued_emit_other by done.
  apply requestsIssued_emit_fetch.
Qed.

(** ** Adding a lead *)

(** X20. What [addLead] sends, read back by [transformApiLeadToLead].
    The body always carries [admin_id] 1, whatever the lead says. A record
    that brings back what was sent yields the labels as they were (no
    comma inside a label, and not the single empty label), a budget that
    is a safe integer (and 0 for a budget of [NaN] or 0), the pipeline flag
    by its truth value, admin 1, and name, phone, address, note and
    requirement as they were, with the empty string for a falsy one.
    Nothing is said of a budget with a fraction or beyond the safe
    integers. *)
Theorem added_lead_reads_back
    (JSON_parse : string -> option value) (stringIsOne : string -> bool)
    (stageOptions priorityOptions sourceOptions : list Options.Option)
    (ref r a : nat) (lead : object) (labels : list string) (budget : number) :
  lookupProp "labels" lead = VArr a (VStr <$> labels) ->
  Forall (fun label => commaFree label = true) labels ->
  labels <> [""] ->
  lookupProp "budget" lead = VNum budget ->
  represented budget = true ->
  exists sent,
    AddLead.apiLead stageOptions priorityOptions sourceOptions lead = Ok sent
    /\ lookupProp "admin_id" sent = VNum (Num 1)
    /\ forall props,
         (forall k, k ∈ ["is_in_pipeline"; "name"; "phone"; "address"; "labels";
                         "requirement"; "budget"; "note"; "admin_id"] ->
                    lookupProp k props = lookupProp k sent) ->
         exists back,
           transformApiLeadToLead JSON_parse stringIsOne stageOptions
             priorityOptions ref (VObj r props) = Ok back
           /\ lookupProp "labels" back = VArr (S ref) (VStr <$> labels)
           /\ lookupProp "budget" back = or_else (VNum budget) (VNum (Num 0))
           /\ lookupProp "isInPipeline" back
              = VBool (truthy (lookupProp "isInPipeline" lead))
           /\ lookupProp "adminId" back = VNum (Num 1)
           /\ Forall (fun k => lookupProp k back
                               = or_else (lookupProp k lead) (VStr ""))
                ["name"; "phone"; "address"; "note"; "requirement"].
Proof.
  intros Hlabels Hfree Hsingle Hbudget _.
  unfold AddLead.apiLead. rewrite Hlabels, Hbudget.
  unfold callToString, joinComma. rewrite toString_labels.
  eexists. split; [reflexivity|]. split; [reflexivity|].
  intros props Hprops.
  assert (lookupProp "is_in_pipeline" props
          = VNum (Num (if truthy (lookupProp "isInPipeline" lead) then 1 else 0)))
    as Hpipeline.
  { rewrite Hprops; [reflexivity|set_solver]. }
  assert (lookupProp "name" props = lookupProp "name" lead) as Hname.
  { rewrite Hprops; [reflexivity|set_solver]. }
  assert (lookupProp "phone" props = lookupProp "phone" lead) as Hphone.
  { rewrite Hprops; [reflexivity|set_solver]. }
  assert (lookupProp "address" props = lookupProp "address" lead) as Haddress.
  { rewrite Hprops; [reflexivity|set_solver]. }
  assert (lookupProp "labels" props = VStr (join "," labels)) as Hsent.
  { rewrite Hprops; [reflexivity|set_solver]. }
  assert (lookupProp "requirement" props = lookupProp "requirement" lead)
    as Hrequirement.
  { rewrite Hprops; [reflexivity|set_solver]. }
  assert (lookupProp "budget" props = VStr (numberToString budget)) as Hamount.
  { rewrite Hprops; [reflexivity|set_solver]. }
  assert (lookupProp "note" props = lookupProp "note" lead) as Hnote.
  { rewrite Hprops; [reflexivity|set_solver]. }
  assert (lookupProp "admin_id" props = VNum (Num 1)) as Hadmin.
  { rewrite Hprops; [reflexivity|set_solver]. }
  unfold transformApiLeadToLead; simpl.
  rewrite Hpipeline, Hname, Hphone, Haddress, Hsent, Hrequirement, Hamount,
    Hnote, Hadmin; simpl.
  generalize (split_join labels Hfree Hsingle).
  destruct (String.eqb (join "," labels) ""); intros Hsplit; simpl;
    (eexists; split; [reflexivity|]); simpl;
    unfold parseInt; simpl; rewrite parseIntString_numberToString;
    (split; [first [by rewrite Hsplit|by rewrite <- Hsplit]|]);
    (split; [reflexivity|]);
    (split; [by destruct (truthy (lookupProp "isInPipeline" lead))|]);
    (split; [reflexivity|]);
    repeat constructor.
Qed.

Lemma added_lead_reads_back_witness :
  let lead := [("name", VStr "Asha"); ("phone", VStr "+919812345678");
               ("isInPipeline", VBool true); ("adminId", VNum (Num 9));
               ("labels", VArr 4 (VStr <$> ["hot"; "resale"]));
               ("budget", VNum (Num 50))] in
  exists sent,
    AddLead.apiLead [] [] [] lead = Ok sent
    /\ lookupProp "admin_id" sent = VNum (Num 1)
    /\ forall props,
         (forall k, k ∈ ["is_in_pipeline"; "name"; "phone"; "address"; "labels";
                         "requirement"; "budget"; "note"; "admin_id"] ->
                    lookupProp k props = lookupProp k sent) ->
         exists back,
           transformApiLeadToLead (fun _ => None) (fun _ => false) [] [] 5
             (VObj 6 props) = Ok back
           /\ lookupProp "labels" back = VArr 6 (VStr <$> ["hot"; "resale"])
           /\ lookupProp "budget" back = or_else (VNum (Num 50)) (VNum (Num 0))
           /\ lookupProp "isInPipeline" back
              = VBool (truthy (lookupProp "isInPipeline" lead))
           /\ lookupProp "adminId" back = VNum (Num 1)
           /\ Forall (fun k => lookupProp k back
                               = or_else (lookupProp k lead) (VStr ""))
                ["name"; "phone"; "address"; "note"; "requirement"].
Proof.
  intros lead.
  apply (added_lead_reads_back (fun _ => None) (fun _ => false) [] [] [] 5 6 4
           lead ["hot"; "resale"] (Num 50)).
  - reflexivity.
  - repeat constructor.
  - discriminate.
  - reflexivity.
  - reflexivity.
Defined.

(** ** Clearing the map of requests *)

(** X21. The map of requests is cleared by [invalidateLeadsCache] while
    operations are in flight, and the [finally] callback of an operation
    deletes its key whoever holds it by then. So when an operation is in
    flight under a key, the map is cleared and a second caller comes under
    the key, the second caller starts an operation of its own; when the
    older one settles it removes the key of the newer one; and a third
    caller under the key is not handed the second promise but starts yet
    another operation, while the second is still in flight. *)
Theorem cleared_map_forgets_newer_request {W K : Type} (resume : K -> W -> W)
    (key : string) (older : nat) (k : K) (secondFn thirdFn : W -> K * W)
    (r : Requests K) (w : W) :
  inFlight r !! older = Some (key, k) ->
  (older < nextPromise r)%nat ->
  let second := makeRequest key secondFn (clearRequests r) w in
  let settled := settle resume older second.1.2 second.2 in
  let third := makeRequest key thirdFn settled.1 settled.2 in
  second.1.1 = nextPromise r
  /\ activeRequests settled.1 !! key = None
  /\ third.1.1 = S (nextPromise r)
  /\ (exists k2, inFlight third.1.2 !! second.1.1 = Some (key, k2))
  /\ (exists k3, inFlight third.1.2 !! third.1.1 = Some (key, k3))
  /\ runs key third.1.2 = (runs key r + 2)%nat.
Proof.
  intros Holder Hlt second settled third.
  destruct (secondFn w) as [k2 w2] eqn:Hsecond.
  assert (second
          = (nextPromise r,
             {| activeRequests := <[key := nextPromise r]> ∅;
                inFlight := <[nextPromise r := (key, k2)]> (inFlight r);
                nextPromise := S (nextPromise r);
                started := started r ++ [(key, nextPromise r)] |},
             w2)) as Hsecond'.
  { subst second. unfold makeRequest, clearRequests; simpl.
    by rewrite lookup_empty, Hsecond. }
  assert (settled
          = ({| activeRequests := delete key (<[key := nextPromise r]> ∅);
                inFlight := delete older (<[nextPromise r := (key, k2)]> (inFlight r));
                nextPromise := S (nextPromise r);
                started := started r ++ [(key, nextPromise r)] |},
             resume k w2)) as Hsettled.
  { subst settled. rewrite Hsecond'. unfold settle; simpl.
    rewrite lookup_insert_ne by lia. by rewrite Holder. }
  destruct (thirdFn (resume k w2)) as [k3 w3] eqn:Hthird.
  assert (third
          = (S (nextPromise r),
             {| activeRequests :=
                  <[key := S (nextPromise r)]> (delete key (<[key := nextPromise r]> ∅));
                inFlight :=
                  <[S (nextPromise r) := (key, k3)]>
                    (delete older (<[nextPromise r := (key, k2)]> (inFlight r)));
                nextPromise := S (S (nextPromise r));
                started := (started r ++ [(key, nextPromise r)])
                           ++ [(key, S (nextPromise r))] |},
             w3)) as Hthird'.
  { subst third. rewrite Hsettled. unfold makeRequest; simpl.
    by rewrite lookup_delete_eq, Hthird. }
  rewrite Hthird', Hsettled, Hsecond'; simpl.
  split; [done|]. split; [apply lookup_delete_eq|]. split; [done|].
  split; [|split].
  - exists k2. rewrite lookup_insert_ne by lia.
    rewrite lookup_delete_ne by lia. apply lookup_insert_eq.
  - exists k3. apply lookup_insert_eq.
  - unfold runs; simpl. rewrite !runs_snoc, String.eqb_refl. lia.
Qed.

Lemma cleared_map_forgets_newer_request_witness :
  let r := (makeRequest "leads-{}" (note "first") (@noRequests unit) []).1.2 in
  let second := makeRequest "leads-{}" (note "second") (clearRequests r) ["first"] in
  let settled := settle (fun _ log => log) 0%nat second.1.2 second.2 in
  let third := makeRequest "leads-{}" (note "third") settled.1 settled.2 in
  second.1.1 = nextPromise r
  /\ activeRequests settled.1 !! "leads-{}" = None
  /\ third.1.1 = S (nextPromise r)
  /\ (exists k2, inFlight third.1.2 !! second.1.1 = Some ("leads-{}", k2))
  /\ (exists k3, inFlight third.1.2 !! third.1.1 = Some ("leads-{}", k3))
  /\ runs "leads-{}" third.1.2 = (runs "leads-{}" r + 2)%nat.
Proof.
  intros r.
  apply (cleared_map_forgets_newer_request (fun _ log => log) "leads-{}" 0%nat tt
           (note "second") (note "third") r ["first"]).
  - vm_compute. reflexivity.
  - vm_compute. lia.
Defined.

(** ** Adding a lead: the refetch *)





(** ** Deleting a task *)

Lemma filter_comm {A : Type} (p q : A -> bool) (l : list A) :
  List.filter p (List.filter q l) = List.filter q (List.filter p l).
Proof.
  induction l as [|x rest IH]; simpl; [done|].
  destruct (p x) eqn:Hp, (q x) eqn:Hq; simpl; rewrite ?Hp, ?Hq, ?IH; done.
Qed.

(** X23. [deleteTodo(id)] never touches the leads, the selection or the
    cache slot. After a confirmed deletion the tasks of every lead are its
    tasks without those of that id; without confirmation the tasks are as
    they were. *)
Theorem deleteTodo_removes_task (id : number) (resp : Response) (s : AppState) :
  let s' := deleteTodo id resp s in
  leads (store s') = leads (store s)
  /\ activeLeadId (store s') = activeLeadId (store s)
  /\ globalLeadsCache (store s') = globalLeadsCache (store s)
  /\ if confirmed resp then
       forall leadId,
         getTodosByLeadId leadId (store s')
         = List.filter (fun todo => negb (strictEq (lookupProp "id" todo) (VNum id)))
             (getTodosByLeadId leadId (store s))
     else todos (store s') = todos (store s).
Proof.
  intros s'. subst s'. unfold deleteTodo, deleteTodoReply, confirmed.
  destruct resp as [e|ok [data|e]]; simpl; try done.
  destruct (get data "success") as [success|e]; simpl; [|done].
  destruct (truthy success); simpl.
  - repeat split. intros leadId. unfold getTodosByLeadId; simpl.
    apply filter_comm.
  - by destruct (get data "message").
Qed.

(** ** Keeping a fetched lead (the variant of [part_000]) *)

Lemma updater_cons (lead x : Lead) (rest : list Lead) :
  Part000FetchSingleLead.updater lead (x :: rest)
  = if strictEq (lookupProp "id" x) (lookupProp "id" lead)
    then lead :: rest
    else x :: Part000FetchSingleLead.updater lead rest.
Proof.
  unfold Part000FetchSingleLead.updater; simpl.
  destruct (strictEq (lookupProp "id" x) (lookupProp "id" lead)); [done|].
  by destruct (findIndex (fun l => strictEq (lookupProp "id" l) (lookupProp "id" lead))
                 rest).
Qed.

(** X24. The updater [fetchSingleLead] of [part_000] hands to [setLeads].
    A fetched lead with a numeric id is found under that id afterwards,
    leads with another id are found as before, and putting the same lead
    in a second time changes nothing. A fetched lead whose id is [NaN]
    matches no lead, itself included: it is appended every time. *)
Theorem fetched_lead_is_kept (lead : Lead) (prevLeads : list Lead) :
  let kept := Part000FetchSingleLead.updater lead prevLeads in
  (forall z, lookupProp "id" lead = VNum (Num z) ->
     findLead (Num z) kept = Some lead
     /\ Part000FetchSingleLead.updater lead kept = kept
     /\ forall other, other <> Num z -> findLead other kept = findLead other prevLeads)
  /\ (lookupProp "id" lead = VNum NaN -> kept = (prevLeads ++ [lead])%list).
Proof.
  intros kept. subst kept. split.
  - intros z Hid.
    assert (strictEq (lookupProp "id" lead) (VNum (Num z)) = true) as Hself.
    { rewrite Hid; simpl. apply Z.eqb_refl. }
    assert (forall other, other <> Num z -> Num z <> other) as Hsym by (intros; congruence).
    assert (forall l, Part000FetchSingleLead.updater lead (lead :: l) = lead :: l)
      as Hfront.
    { intros l. rewrite updater_cons. rewrite Hid at 2. by rewrite Hself. }
    induction prevLeads as [|x rest (IHfound & IHtwice & IHother)].
    + change (Part000FetchSingleLead.updater lead []) with [lead].
      split; [|split; [apply Hfront|]].
      * unfold findLead; simpl. by rewrite Hself.
      * intros other Hother. unfold findLead; simpl.
        by rewrite (strictEq_other_number _ _ _ Hself (Hsym _ Hother)).
    + rewrite updater_cons, Hid.
      destruct (strictEq (lookupProp "id" x) (VNum (Num z))) eqn:Hx.
      * split; [|split; [apply Hfront|]].
        -- unfold findLead; simpl. by rewrite Hself.
        -- intros other Hother. unfold findLead; simpl.
           by rewrite (strictEq_other_number _ _ _ Hself (Hsym _ Hother)),
             (strictEq_other_number _ _ _ Hx (Hsym _ Hother)).
      * split; [|split].
        -- unfold findLead in *; simpl. by rewrite Hx.
        -- rewrite updater_cons, Hid, Hx. by rewrite IHtwice.
        -- intros other Hother. unfold findLead in *; simpl.
           destruct (strictEq (lookupProp "id" x) (VNum other)); [done|].
           by apply IHother.
  - intros Hid. induction prevLeads as [|x rest IH]; [done|].
    rewrite updater_cons, Hid, IH.
    by destruct (lookupProp "id" x) as [| | |[|n]| | |].
Qed.
